(** * or-rules: configuration resolver and selection guard

    A shallow embedding of [ui/component/or-rules/src/index.ts]:
    - [getAssetDescriptorFromSection], [getAssetTypes] and [getAssetInfos],
      the layered resolution of asset type infos against a [RulesConfig];
    - the request events of the component and the handlers
      [_confirmContinue] and [_onRuleSelectionRequested] of [OrRules].

    JavaScript objects that are shared and written through references live
    in explicit stores; a function that reads or writes them is a state
    transformer that either returns or throws. *)

From stdpp Require Import base option list strings gmap.

(** ** JavaScript effects: completions, state, object stores *)

Module Js.

(** What a call can throw.  [TypeError] is a property read on [undefined];
    [DanglingRef] is a read through a reference that is not in the store,
    which no JavaScript program can produce and only an ill-formed model
    store can. *)
Inductive exn : Type := TypeError | DanglingRef.

Inductive completion (A : Type) : Type :=
| Returns (a : A)
| Throws (e : exn).
Arguments Returns {A} a.
Arguments Throws {A} e.

(** A computation over a mutable state [S]. *)
Definition Eff (S A : Type) : Type := S → completion (A * S).

#[global] Instance Eff_ret {S} : MRet (Eff S) :=
  λ A a s, Returns (a, s).

#[global] Instance Eff_bind {S} : MBind (Eff S) :=
  λ A B f m s,
    match m s with
    | Returns (a, s') => f a s'
    | Throws e => Throws e
    end.

Definition throw {S A} (e : exn) : Eff S A := λ _, Throws e.
Definition get {S} : Eff S S := λ s, Returns (s, s).

(** [xs.filter(f)] with an effectful callback, left to right. *)
Fixpoint filterM {S A} (f : A → Eff S bool) (l : list A) : Eff S (list A) :=
  match l with
  | [] => mret []
  | x :: l => b ← f x; k ← filterM f l; mret (if b : bool then x :: k else k)
  end.

(** [xs.map(f)] whose result array is dropped: only the effects count. *)
Definition forEach {S A} (f : A → Eff S unit) (l : list A) : Eff S unit :=
  _ ← mapM f l; mret ().

(** References are indices into a store; allocation appends. *)
Definition Ref : Type := nat.

(** Truthiness of an optional string: [undefined] and the empty string are
    falsy. *)
Definition truthy (s : option string) : bool :=
  match s with
  | Some s => negb (String.eqb s "")
  | None => false
  end.

(** An [undefined] used as a property key is the key ["undefined"]. *)
Definition propKey (k : option string) : string := default "undefined" k.

(** Truthiness of an optional object or array: only [undefined] is falsy. *)
Definition defined {A} (x : option A) : bool :=
  if x is Some _ then true else false.

(** [xs.indexOf(x) < 0] *)
Definition notIndexOf {A} `{EqDecision A} (xs : list A) (x : A) : bool :=
  bool_decide (x ∉ xs).

End Js.

Import Js.

(** ** The configuration resolver *)

Module Resolver.

Section Model.

(** [ValueFormat] and [ValueConstraint] of [@openremote/model] are only
    moved around by the resolver. *)
Variables ValueFormat ValueConstraint : Type.

(** [Util.stringMatch(needle, haystack)] of [@openremote/core]; the
    haystack is an attribute name, which the model type leaves optional. *)
Variable stringMatch : string → option string → bool.

(** [WellknownAssets.UNKNOWNASSET] *)
Variable UNKNOWNASSET : string.

(** *** Model types ([@openremote/model]) *)

Record AssetDescriptor : Type := {
  descriptorType : string;
  ad_name : option string;
  icon : option string;
  colour : option string
}.

Record AttributeDescriptor : Type := {
  attr_name : option string;
  type : option string;
  format : option ValueFormat;
  units : option (list string);
  constraints : option (list ValueConstraint)
}.

(** The attribute descriptors of a type info are objects shared with the
    catalog: the array holds references to them. *)
Record AssetTypeInfo : Type := {
  assetDescriptor : option AssetDescriptor;
  attributeDescriptors : option (list Ref);
  metaItemDescriptors : option (list string);
  valueDescriptors : option (list string)
}.

(** *** Configuration types *)

(** [RulesConfigAttribute extends AttributeDescriptor] and adds nothing. *)
Definition RulesConfigAttribute : Type := AttributeDescriptor.

Record RulesConfigAsset : Type := {
  includeAttributes : option (list string);
  excludeAttributes : option (list string);
  rca_name : option string;
  rca_icon : option string;
  color : option string;
  rca_attributeDescriptors : option (gmap string RulesConfigAttribute)
}.

Record RulesDescriptorSection : Type := {
  includeAssets : option (list string);
  excludeAssets : option (list string);
  rds_attributeDescriptors : option (gmap string RulesConfigAttribute);
  assets : option (gmap string RulesConfigAsset)
}.

Record Descriptors : Type := {
  all : option RulesDescriptorSection;
  when : option RulesDescriptorSection;
  action : option RulesDescriptorSection
}.

(** Only [descriptors] is read by the resolver; [controls], [inputProvider],
    the handlers and [json] are passed through to other components. *)
Record RulesConfig : Type := {
  descriptors : option Descriptors
}.

(** *** The object store and the catalog accessor *)

Record Heap : Type := {
  infos : list AssetTypeInfo;
  attrs : list AttributeDescriptor
}.

(** [AssetModelUtil] of [@openremote/core], as the resolver uses it.
    [getAssetTypeInfo] is declared to return [AssetTypeInfo | undefined]. *)
Record AssetModelUtil : Type := {
  getAssetTypeInfos : list Ref;
  getAssetDescriptors : list AssetDescriptor;
  getAssetTypeInfo : AssetDescriptor → option Ref
}.

Definition readInfo (r : Ref) : Eff Heap AssetTypeInfo :=
  λ h, match infos h !! r with
       | Some ti => Returns (ti, h)
       | None => Throws DanglingRef
       end.

Definition allocInfo (ti : AssetTypeInfo) : Eff Heap Ref :=
  λ h, Returns (length (infos h), {| infos := infos h ++ [ti]; attrs := attrs h |}).

Definition readAttr (r : Ref) : Eff Heap AttributeDescriptor :=
  λ h, match attrs h !! r with
       | Some a => Returns (a, h)
       | None => Throws DanglingRef
       end.

Definition writeAttr (r : Ref) (a : AttributeDescriptor) : Eff Heap unit :=
  λ h, match attrs h !! r with
       | Some _ => Returns ((), {| infos := infos h; attrs := <[r := a]> (attrs h) |})
       | None => Throws DanglingRef
       end.

(** [x!.f] where [x] may be [undefined] at run time. *)
Definition deref {A} (x : option A) : Eff Heap A :=
  match x with
  | Some a => mret a
  | None => throw TypeError
  end.

(** *** [getAssetDescriptorFromSection] *)

Definition getAssetDescriptorFromSection (assetType : string)
    (config : option RulesConfig) (useActionConfig : bool) : option RulesConfigAsset :=
  match config ≫= descriptors with
  | None => None
  | Some d =>
    let section := if useActionConfig then action d else when d in
    let allSection := all d in
    let descriptor :=
      match section ≫= assets with
      | Some a => if a !! assetType is Some x then Some x else a !! "*"
      | None => None
      end in
    match descriptor with
    | Some x => Some x
    | None =>
      match allSection ≫= assets with
      | Some a => if a !! assetType is Some x then Some x else a !! "*"
      | None => None
      end
    end
  end.

(** *** [getAssetTypes] *)

(** [ati.assetDescriptor!.name] *)
Definition descriptorName (ati : AssetTypeInfo) : Eff Heap (option string) :=
  d ← deref (assetDescriptor ati); mret (ad_name d).

Definition getAssetTypes (catalog : AssetModelUtil) : Eff Heap (list (option string)) :=
  atis ← mapM readInfo (getAssetTypeInfos catalog);
  kept ← filterM (λ ati, n ← descriptorName ati;
                         mret (bool_decide (n ≠ Some UNKNOWNASSET))) atis;
  mapM descriptorName kept.


(** *** [getAssetInfos] *)

(** The allow list (lines 221 and 229-239), by sequential assignment. *)
Definition allowedAssetTypes (d : Descriptors) (section : option RulesDescriptorSection)
    (availibleAssetTypes : list (option string)) : list (option string) :=
  let allowedAssetTypes := availibleAssetTypes in
  if defined (section ≫= includeAssets) || defined (all d ≫= includeAssets) then
    let allowedAssetTypes := [] in
    let allowedAssetTypes :=
      if section ≫= includeAssets is Some l then Some <$> l else allowedAssetTypes in
    let allowedAssetTypes :=
      if all d ≫= includeAssets is Some l then Some <$> l else allowedAssetTypes in
    allowedAssetTypes
  else allowedAssetTypes.

(** The exclude list (lines 222 and 241-246). *)
Definition excludedAssetTypes (d : Descriptors) (section : option RulesDescriptorSection)
    : list (option string) :=
  let excludedAssetTypes := [] in
  let excludedAssetTypes :=
    if section ≫= excludeAssets is Some l then Some <$> l else excludedAssetTypes in
  let excludedAssetTypes :=
    if all d ≫= excludeAssets is Some l
    then excludedAssetTypes ++ (Some <$> l) else excludedAssetTypes in
  excludedAssetTypes.

(** The callback of [assetDescriptors.filter] (lines 248-253). *)
Definition isIncluded (allowedAssetTypes excludedAssetTypes : list (option string))
    (ad : AssetDescriptor) : bool :=
  if (0 <? length allowedAssetTypes) && notIndexOf allowedAssetTypes (ad_name ad)
  then false
  else notIndexOf excludedAssetTypes (ad_name ad).

(** The config entry for an attribute (lines 292-298): the asset entry's
    own dictionary, else the section's, else the [all] section's. *)
Definition findConfigAttribute (own : gmap string RulesConfigAttribute)
    (d : Descriptors) (section : option RulesDescriptorSection)
    (name : option string) : option RulesConfigAttribute :=
  let configAttributeDescriptor := own !! propKey name in
  let configAttributeDescriptor :=
    if configAttributeDescriptor is Some c then Some c
    else dict ← section ≫= rds_attributeDescriptors; dict !! propKey name in
  let configAttributeDescriptor :=
    if configAttributeDescriptor is Some c then Some c
    else dict ← all d ≫= rds_attributeDescriptors; dict !! propKey name in
  configAttributeDescriptor.

(** The four assignments of lines 300-311, on the fields of one attribute
    descriptor. *)
Definition assignOverrides (c : RulesConfigAttribute) (a : AttributeDescriptor)
    : AttributeDescriptor :=
  {| attr_name := attr_name a;
     type := if truthy (type c) then type c else type a;
     format := if format c is Some f then Some f else format a;
     units := if units c is Some u then Some u else units a;
     constraints :=
       match constraints c with
       | Some cs =>
         match constraints a with
         | Some own => Some (cs ++ own)
         | None => Some cs
         end
       | None => constraints a
       end |}.

(** The callback of [modifiedTypeInfo.attributeDescriptors.map] (lines
    291-313): it writes to the object the array element refers to. *)
Definition overrideAttribute (own : gmap string RulesConfigAttribute)
    (d : Descriptors) (section : option RulesDescriptorSection) (r : Ref) : Eff Heap unit :=
  attributeDescriptor ← readAttr r;
  match findConfigAttribute own d section (attr_name attributeDescriptor) with
  | Some c => writeAttr r (assignOverrides c attributeDescriptor)
  | None => mret ()
  end.

(** The callback of the attribute filter (lines 284-286). *)
Definition attributeIncluded (includedAttributes excludedAttributes : option (list string))
    (r : Ref) : Eff Heap bool :=
  mad ← readAttr r;
  mret ((if includedAttributes is Some inc
         then existsb (λ i, stringMatch i (attr_name mad)) inc else true)
        && (if excludedAttributes is Some exc
            then negb (existsb (λ e, stringMatch e (attr_name mad)) exc) else true)).

(** The callback of [.map] over the surviving descriptors (lines 254-317).
    [modifiedTypeInfo] is private to the call until it is returned, so it is
    built as a value and enters the store when it is returned. *)
Definition amalgamate (catalog : AssetModelUtil) (config : RulesConfig) (d : Descriptors)
    (useActionConfig : bool) (ad : AssetDescriptor) : Eff Heap (option Ref) :=
  let section := if useActionConfig then action d else when d in
  let typeInfo := getAssetTypeInfo catalog ad in
  match getAssetDescriptorFromSection (propKey (ad_name ad)) (Some config) useActionConfig with
  | None => mret typeInfo
  | Some configDescriptor =>
    ti ← (r ← deref typeInfo; readInfo r);
    let modifiedAssetDescriptor :=
      if assetDescriptor ti is Some x then x
      else {| descriptorType := "asset"; ad_name := None; icon := None; colour := None |} in
    let modifiedAttributeDescriptors := default [] (attributeDescriptors ti) in
    let modifiedAssetDescriptor :=
      if truthy (rca_icon configDescriptor)
      then {| descriptorType := descriptorType modifiedAssetDescriptor;
              ad_name := ad_name modifiedAssetDescriptor;
              icon := rca_icon configDescriptor;
              colour := colour modifiedAssetDescriptor |}
      else modifiedAssetDescriptor in
    let modifiedAssetDescriptor :=
      if truthy (color configDescriptor)
      then {| descriptorType := descriptorType modifiedAssetDescriptor;
              ad_name := ad_name modifiedAssetDescriptor;
              icon := icon modifiedAssetDescriptor;
              colour := color configDescriptor |}
      else modifiedAssetDescriptor in
    let includedAttributes := includeAttributes configDescriptor in
    let excludedAttributes := excludeAttributes configDescriptor in
    modifiedAttributeDescriptors ←
      (if defined includedAttributes || defined excludedAttributes
       then filterM (attributeIncluded includedAttributes excludedAttributes)
                    modifiedAttributeDescriptors
       else mret modifiedAttributeDescriptors);
    _ ← (if rca_attributeDescriptors configDescriptor is Some own
         then forEach (overrideAttribute own d section) modifiedAttributeDescriptors
         else mret ());
    r ← allocInfo {| assetDescriptor := Some modifiedAssetDescriptor;
                     attributeDescriptors := Some modifiedAttributeDescriptors;
                     metaItemDescriptors := Some (default [] (metaItemDescriptors ti));
                     valueDescriptors := Some (default [] (valueDescriptors ti)) |};
    mret (Some r)
  end.

Definition getAssetInfos (catalog : AssetModelUtil) (config : option RulesConfig)
    (useActionConfig : bool) : Eff Heap (list (option Ref)) :=
  let assetDescriptors := getAssetDescriptors catalog in
  availibleAssetTypes ← getAssetTypes catalog;
  match config with
  | None => mret (getAssetTypeInfo catalog <$> assetDescriptors)
  | Some c =>
    match descriptors c with
    | None => mret (getAssetTypeInfo catalog <$> assetDescriptors)
    | Some d =>
      let section := if useActionConfig then action d else when d in
      let allowed := allowedAssetTypes d section availibleAssetTypes in
      let excluded := excludedAssetTypes d section in
      mapM (amalgamate catalog c d useActionConfig)
           (filter (λ ad, isIncluded allowed excluded ad) assetDescriptors)
    end
  end.

(** *** The query accessors *)

(** [AssetQuery] of [@openremote/model], as the two accessors read it. *)
Record AssetQuery : Type := {
  types : option (list string);
  ids : option (list string)
}.

Definition getAssetTypeFromQuery (query : option AssetQuery) : option string :=
  match query with
  | Some q =>
    match types q with
    | Some ts =>
      if (0 <? length ts) && truthy (ts !! 0%nat) then ts !! 0%nat else None
    | None => None
    end
  | None => None
  end.

(** [[...query.ids]]: arrays of strings are values here, so the copy is the
    list itself. *)
Definition getAssetIdsFromQuery (query : option AssetQuery) : option (list string) :=
  match query with
  | Some q => if ids q is Some l then Some l else None
  | None => None
  end.

(** *** Reading a resolution, and the stores it is run on *)

(** Whether the attribute filter keeps the object behind a reference, read
    off the name that object has in a store. *)
Definition attributeKept (h : Heap) (includedAttributes excludedAttributes : option (list string))
    (r : Ref) : bool :=
  let name := attrs h !! r ≫= attr_name in
  (if includedAttributes is Some inc then existsb (λ i, stringMatch i name) inc else true)
  && (if excludedAttributes is Some exc
      then negb (existsb (λ e, stringMatch e name) exc) else true).

(** An attribute descriptor object after some overrides, against what it
    was: same name, and its own constraints still there, at the end. *)
Definition grown (a a' : AttributeDescriptor) : Prop :=
  attr_name a' = attr_name a
  ∧ ∀ cs, constraints a = Some cs → ∃ cs', constraints a' = Some cs' ∧ cs `suffix_of` cs'.

(** A store after some resolutions, against what it was: the type infos it
    had are still there, as they were, and each attribute descriptor object
    is still there, grown. *)
Definition evolved (h h' : Heap) : Prop :=
  infos h `prefix_of` infos h'
  ∧ length (attrs h') = length (attrs h)
  ∧ ∀ r a, attrs h !! r = Some a → ∃ a', attrs h' !! r = Some a' ∧ grown a a'.

(** The value a returned entry has in a given store, with the attribute
    descriptor objects read through their references: what a deep
    comparison of two results looks at. *)
Definition snapshot (h : Heap) (r : option Ref)
    : option (AssetTypeInfo * list (option AttributeDescriptor)) :=
  ti ← r ≫= (infos h !!.);
  Some (ti, (attrs h !!.) <$> default [] (attributeDescriptors ti)).

(** The catalog's registry in a store: every registered type info is there
    and carries its descriptor, as [getAssetTypes] asserts. *)
Definition registered (h : Heap) (catalog : AssetModelUtil) : Prop :=
  Forall (λ r, ∃ ti ad, infos h !! r = Some ti ∧ assetDescriptor ti = Some ad)
         (getAssetTypeInfos catalog).

(** The name [getAssetTypes] reads through a registered reference. *)
Definition registeredName (h : Heap) (r : Ref) : option string :=
  ti ← infos h !! r; ad ← assetDescriptor ti; ad_name ad.

(** A descriptor whose type info the catalog finds, with every attribute
    descriptor of that info in the store. *)
Definition described (h : Heap) (catalog : AssetModelUtil) (ad : AssetDescriptor) : Prop :=
  ∃ r ti, getAssetTypeInfo catalog ad = Some r ∧ infos h !! r = Some ti
          ∧ Forall (λ a, is_Some (attrs h !! a)) (default [] (attributeDescriptors ti)).

(** What the override callback leaves in an attribute descriptor object
    that held [a]. *)
Definition overridden (own : gmap string RulesConfigAttribute)
    (d : Descriptors) (section : option RulesDescriptorSection)
    (a : AttributeDescriptor) : AttributeDescriptor :=
  if findConfigAttribute own d section (attr_name a) is Some c
  then assignOverrides c a else a.

(** The references a resolution returns for the surviving descriptors, in
    their order, on a store that has [next] type infos: the catalog's own
    for a descriptor without override, the next new object for one with. *)
Fixpoint resolvedRefs (catalog : AssetModelUtil) (config : RulesConfig)
    (useActionConfig : bool) (next : Ref) (survivors : list AssetDescriptor)
    : list (option Ref) :=
  match survivors with
  | [] => []
  | ad :: rest =>
    if getAssetDescriptorFromSection (propKey (ad_name ad)) (Some config) useActionConfig
         is Some _
    then Some next :: resolvedRefs catalog config useActionConfig (S next) rest
    else getAssetTypeInfo catalog ad :: resolvedRefs catalog config useActionConfig next rest
  end.

(** What makes a returned entry the entry of a descriptor, read in the
    store the resolution leaves: without override it is the catalog's type
    info of the descriptor; with one it is another object than the
    catalog's, whose descriptor has the name and descriptor type of the
    catalog's and whose attribute array is a subsequence of the catalog's. *)
Definition entryFor (catalog : AssetModelUtil) (config : RulesConfig)
    (useActionConfig : bool) (h' : Heap) (ad : AssetDescriptor) (result : option Ref) : Prop :=
  match getAssetDescriptorFromSection (propKey (ad_name ad)) (Some config) useActionConfig with
  | None => result = getAssetTypeInfo catalog ad
  | Some _ =>
    ∃ (new r : Ref) (ti ti' : AssetTypeInfo) (ad' : AssetDescriptor) (l' : list Ref),
      result = Some new
      ∧ getAssetTypeInfo catalog ad = Some r
      ∧ infos h' !! r = Some ti
      ∧ infos h' !! new = Some ti'
      ∧ new ≠ r
      ∧ assetDescriptor ti' = Some ad'
      ∧ ad_name ad' = (assetDescriptor ti ≫= ad_name)
      ∧ attributeDescriptors ti' = Some l'
      ∧ l' `sublist_of` default [] (attributeDescriptors ti)
  end.

(** The spec's reading of the override lookup: "the first defined among"
    the candidates, in order. *)
Fixpoint firstDefined {A} (candidates : list (option A)) : option A :=
  match candidates with
  | [] => None
  | Some x :: _ => Some x
  | None :: rest => firstDefined rest
  end.

(** A section's [assets] entry under a key, when the section and its
    dictionary are there. *)
Definition assetsEntry (section : option RulesDescriptorSection) (key : string)
    : option RulesConfigAsset :=
  dict ← section ≫= assets; dict !! key.

End Model.

Arguments attr_name {_ _} _.
Arguments type {_ _} _.
Arguments format {_ _} _.
Arguments units {_ _} _.
Arguments constraints {_ _} _.
Arguments includeAttributes {_ _} _.
Arguments excludeAttributes {_ _} _.
Arguments rca_name {_ _} _.
Arguments rca_icon {_ _} _.
Arguments color {_ _} _.
Arguments rca_attributeDescriptors {_ _} _.
Arguments includeAssets {_ _} _.
Arguments excludeAssets {_ _} _.
Arguments rds_attributeDescriptors {_ _} _.
Arguments assets {_ _} _.
Arguments all {_ _} _.
Arguments when {_ _} _.
Arguments action {_ _} _.
Arguments descriptors {_ _} _.
Arguments infos {_ _} _.
Arguments attrs {_ _} _.
Arguments readInfo {_ _} _ _.
Arguments allocInfo {_ _} _ _.
Arguments readAttr {_ _} _ _.
Arguments writeAttr {_ _} _ _ _.
Arguments deref {_ _ _} _ _.
Arguments getAssetDescriptorFromSection {_ _} _ _ _.
Arguments descriptorName {_ _} _ _.
Arguments getAssetTypes {_ _} _ _ _.
Arguments allowedAssetTypes {_ _} _ _ _.
Arguments excludedAssetTypes {_ _} _ _.
Arguments isIncluded _ _ _ : clear implicits.
Arguments findConfigAttribute {_ _} _ _ _ _.
Arguments assignOverrides {_ _} _ _.
Arguments overrideAttribute {_ _} _ _ _ _ _.
Arguments attributeIncluded {_ _} _ _ _ _ _.
Arguments amalgamate {_ _} _ _ _ _ _ _ _.
Arguments getAssetInfos {_ _} _ _ _ _ _ _.
Arguments snapshot {_ _} _ _.
Arguments registered {_ _} _ _.
Arguments registeredName {_ _} _ _.
Arguments described {_ _} _ _ _.
Arguments assetsEntry {_ _} _ _.
Arguments overridden {_ _} _ _ _ _.
Arguments attributeKept {_ _} _ _ _ _ _.
Arguments resolvedRefs {_ _} _ _ _ _ _.
Arguments entryFor {_ _} _ _ _ _ _ _.
Arguments grown {_ _} _ _.
Arguments evolved {_ _} _ _.

End Resolver.

(** ** The request events *)

Module Events.

(** [CustomEvent<T>] with the fields the constructors set. *)
Record CustomEvent (T : Type) : Type := {
  event_type : string;
  bubbles : bool;
  composed : bool;
  event_detail : T
}.
Arguments event_type {T} _.
Arguments bubbles {T} _.
Arguments composed {T} _.
Arguments event_detail {T} _.

Record RequestEventDetail (T : Type) : Type := {
  allow : bool;
  detail : T
}.
Arguments allow {T} _.
Arguments detail {T} _.

(** A ruleset is an object: a node refers to it. *)
Record RulesetNode : Type := {
  ruleset : Ref;
  selected : bool
}.

Record NodeSelectEventDetail : Type := {
  oldNodes : list RulesetNode;
  newNodes : list RulesetNode
}.

Record AddEventDetail : Type := {
  add_ruleset : Ref;
  sourceRuleset : option Ref
}.

Definition OrRulesRequestSelectionEvent (request : NodeSelectEventDetail)
    : CustomEvent (RequestEventDetail NodeSelectEventDetail) :=
  {| event_type := "or-rules-request-selection";
     bubbles := true;
     composed := true;
     event_detail := {| detail := request; allow := true |} |}.

Definition OrRulesRequestAddEvent (detail : AddEventDetail)
    : CustomEvent (RequestEventDetail AddEventDetail) :=
  {| event_type := "or-rules-request-add";
     bubbles := true;
     composed := true;
     event_detail := {| detail := detail; allow := true |} |}.

Definition OrRulesRequestDeleteEvent (request : list RulesetNode)
    : CustomEvent (RequestEventDetail (list RulesetNode)) :=
  {| event_type := "or-rules-request-delete";
     bubbles := true;
     composed := true;
     event_detail := {| detail := request; allow := true |} |}.

Definition OrRulesRequestSaveEvent (ruleset : Ref)
    : CustomEvent (RequestEventDetail Ref) :=
  {| event_type := "or-rules-request-save";
     bubbles := true;
     composed := true;
     event_detail := {| allow := true; detail := ruleset |} |}.

Record SaveResult : Type := {
  success : bool;
  save_ruleset : Ref;
  isNew : bool
}.

Definition OrRulesRuleChangedEvent (valid : bool) : CustomEvent bool :=
  {| event_type := "or-rules-rule-changed";
     bubbles := true;
     composed := true;
     event_detail := valid |}.

Definition OrRulesSelectionEvent (nodes : NodeSelectEventDetail)
    : CustomEvent NodeSelectEventDetail :=
  {| event_type := "or-rules-selection";
     bubbles := true;
     composed := true;
     event_detail := nodes |}.

Definition OrRulesAddEvent (detail : AddEventDetail) : CustomEvent AddEventDetail :=
  {| event_type := "or-rules-add";
     bubbles := true;
     composed := true;
     event_detail := detail |}.

Definition OrRulesSaveEvent (result : SaveResult) : CustomEvent SaveResult :=
  {| event_type := "or-rules-save";
     bubbles := true;
     composed := true;
     event_detail := result |}.

Definition OrRulesDeleteEvent (rulesets : list Ref) : CustomEvent (list Ref) :=
  {| event_type := "or-rules-delete";
     bubbles := true;
     composed := true;
     event_detail := rulesets |}.

(** [event.detail.allow = false] *)
Definition disallow {T} (event : CustomEvent (RequestEventDetail T))
    : CustomEvent (RequestEventDetail T) :=
  {| event_type := event_type event;
     bubbles := bubbles event;
     composed := composed event;
     event_detail := {| allow := false; detail := detail (event_detail event) |} |}.

End Events.

(** ** The selection guard of [OrRules] *)

Module Guard.

Import Events.

Section Model.

(** [RulesetUnion] of [@openremote/model]: the guard reads [id]; the other
    fields are only copied and compared. *)
Context {RulesetFields : Type} `{EqDecision RulesetFields}.

Record Ruleset : Type := {
  id : option Z;
  fields : RulesetFields
}.

#[global] Instance Ruleset_eq_dec : EqDecision Ruleset.
Proof. solve_decision. Defined.

(** [OrRuleViewer], as the guard uses it. *)
Record OrRuleViewer : Type := {
  modified : bool;
  viewer_ruleset : option Ref
}.

(** The component, with the store of ruleset objects it works on. *)
Record OrRules : Type := {
  heap : list Ruleset;
  _viewer : OrRuleViewer;
  selectedIds : option (list (option Z))
}.

Definition readRuleset (r : Ref) : Eff OrRules Ruleset :=
  λ this, match heap this !! r with
          | Some x => Returns (x, this)
          | None => Throws DanglingRef
          end.

Definition allocRuleset (x : Ruleset) : Eff OrRules Ref :=
  λ this, Returns (length (heap this),
                   {| heap := heap this ++ [x];
                      _viewer := _viewer this;
                      selectedIds := selectedIds this |}).

(** [{...ruleset}]: a new object with the same fields. *)
Definition copyRuleset (r : Ref) : Eff OrRules Ref :=
  x ← readRuleset r; allocRuleset x.

(** [this._viewer.ruleset = r] *)
Definition setViewerRuleset (r : option Ref) : Eff OrRules unit :=
  λ this, Returns ((), {| heap := heap this;
                          _viewer := {| modified := modified (_viewer this);
                                        viewer_ruleset := r |};
                          selectedIds := selectedIds this |}).

(** [this.selectedIds = ids] *)
Definition setSelectedIds (ids : list (option Z)) : Eff OrRules unit :=
  λ this, Returns ((), {| heap := heap this;
                          _viewer := _viewer this;
                          selectedIds := Some ids |}).

(** Modelled from the spec: [Util.objectsEqual] of [@openremote/core] is not
    among the sources; the spec has it decide whether the two node lists are
    "identical (by deep equality)", so the nodes are compared by their
    [selected] flags and by the contents of the rulesets they refer to. *)
Definition objectsEqual (h : list Ruleset) (a b : list RulesetNode) : bool :=
  bool_decide ((λ n, (h !! ruleset n, selected n)) <$> a
               = (λ n, (h !! ruleset n, selected n)) <$> b).

(** What a handler leaves behind when it returns: nothing, or an open
    ok/cancel dialog whose promise will call [onResolved]. *)
Inductive Pending : Type :=
| Settled
| OkCancelDialog (title content : string) (onResolved : bool → Eff OrRules unit).

Definition _confirmContinue (action : Eff OrRules unit) : Eff OrRules Pending :=
  this ← get;
  if modified (_viewer this)
  then mret (OkCancelDialog "loseChanges" "confirmContinueRulesetModified"
               (λ ok, if ok : bool then action else mret ()))
  else _ ← action; mret Settled.

(** The arrow function passed to [_confirmContinue] (lines 617-626);
    [nodes[0].ruleset] throws when [nodes] is empty. *)
Definition selectionAction
    (event : CustomEvent (RequestEventDetail NodeSelectEventDetail)) : Eff OrRules unit :=
  let nodes := newNodes (detail (event_detail event)) in
  this ← get;
  if objectsEqual (heap this) nodes (oldNodes (detail (event_detail event)))
  then
    match nodes !! 0%nat with
    | None => throw TypeError
    | Some node => r ← copyRuleset (ruleset node); setViewerRuleset (Some r)
    end
  else
    ids ← mapM (λ node, x ← readRuleset (ruleset node); mret (id x)) nodes;
    _ ← setSelectedIds ids;
    setViewerRuleset (if bool_decide (length nodes = 1%nat)
                      then ruleset <$> nodes !! 0%nat else None).

(** The handler returns the event it was given, as it left it. *)
Definition _onRuleSelectionRequested
    (event : CustomEvent (RequestEventDetail NodeSelectEventDetail))
    : Eff OrRules (CustomEvent (RequestEventDetail NodeSelectEventDetail) * Pending) :=
  this ← get;
  let isModified := modified (_viewer this) in
  if negb isModified then mret (event, Settled)
  else
    let event := disallow event in
    pending ← _confirmContinue (selectionAction event);
    mret (event, pending).

(** [_onRuleSelectionChanged] (lines 629-633). *)
Definition _onRuleSelectionChanged (event : CustomEvent NodeSelectEventDetail)
    : Eff OrRules unit :=
  let nodes := newNodes (event_detail event) in
  ids ← mapM (λ node, x ← readRuleset (ruleset node); mret (id x)) nodes;
  _ ← setSelectedIds ids;
  if bool_decide (length nodes = 1%nat)
  then
    match nodes !! 0%nat with
    | None => throw TypeError
    | Some node => r ← copyRuleset (ruleset node); setViewerRuleset (Some r)
    end
  else setViewerRuleset None.

(** [_onRuleAdd] (lines 635-638). *)
Definition _onRuleAdd (event : CustomEvent AddEventDetail) : Eff OrRules unit :=
  setViewerRuleset (Some (add_ruleset (event_detail event))).

(** [_onRuleSave] (lines 640-645).  [refresh] is [this._rulesList.refresh()]
    of [or-rule-list], awaited first: whatever it does to the component. *)
Definition _onRuleSave (refresh : Eff OrRules unit) (event : CustomEvent SaveResult)
    : Eff OrRules unit :=
  _ ← refresh;
  if success (event_detail event) && isNew (event_detail event)
  then x ← readRuleset (save_ruleset (event_detail event)); setSelectedIds [id x]
  else mret ().

(** The dialog's promise resolves with the user's choice ([false] for
    cancel; the spec counts a dismissal as a cancel). *)
Definition resolveDialog (pending : Pending) (ok : bool) : Eff OrRules unit :=
  match pending with
  | Settled => mret ()
  | OkCancelDialog _ _ onResolved => onResolved ok
  end.

End Model.

Arguments Ruleset : clear implicits.
Arguments OrRules : clear implicits.

End Guard.

(** ** Sample inputs *)

Module Samples.

Import Resolver Events.

(** The exact-match case of [Util.stringMatch]. *)
Definition exactMatch (needle : string) (haystack : option string) : bool :=
  bool_decide (haystack = Some needle).

Definition UNKNOWNASSET : string := "UnknownAsset".

(** A catalog with one asset type, whose one attribute has the native
    constraint ["c1"]; formats are not used and constraints are named. *)
Definition thermostat : AssetDescriptor :=
  {| descriptorType := "asset"; ad_name := Some "ThermostatAsset";
     icon := Some "thermometer"; colour := None |}.

Definition temperature : AttributeDescriptor unit string :=
  {| attr_name := Some "temperature"; type := Some "number"; format := None;
     units := None; constraints := Some ["c1"] |}.

Definition thermostatInfo : AssetTypeInfo :=
  {| assetDescriptor := Some thermostat; attributeDescriptors := Some [0];
     metaItemDescriptors := None; valueDescriptors := None |}.

Definition store : Heap unit string :=
  {| infos := [thermostatInfo]; attrs := [temperature] |}.

Definition catalog : AssetModelUtil :=
  {| getAssetTypeInfos := [0];
     getAssetDescriptors := [thermostat];
     getAssetTypeInfo := λ ad,
       if bool_decide (ad_name ad = Some "ThermostatAsset") then Some 0 else None |}.

(** A config whose [all] section overrides, for every asset type, the
    constraints of [temperature] with ["c2"]. *)
Definition temperatureOverride : RulesConfigAttribute unit string :=
  {| attr_name := None; type := None; format := None; units := None;
     constraints := Some ["c2"] |}.

Definition anyAsset : RulesConfigAsset unit string :=
  {| includeAttributes := None; excludeAttributes := None; rca_name := None;
     rca_icon := None; color := None;
     rca_attributeDescriptors := Some {[ "temperature" := temperatureOverride ]} |}.

Definition overriding : Descriptors unit string :=
  {| all := Some {| includeAssets := None; excludeAssets := None;
                    rds_attributeDescriptors := None;
                    assets := Some {[ "*" := anyAsset ]} |};
     when := None;
     action := None |}.

Definition config : RulesConfig unit string := {| descriptors := Some overriding |}.

(** The same override kept in the [all] section's shared dictionary, with
    an asset entry that has no dictionary of its own. *)
Definition plainAsset : RulesConfigAsset unit string :=
  {| includeAttributes := None; excludeAttributes := None; rca_name := None;
     rca_icon := None; color := None; rca_attributeDescriptors := None |}.

Definition sharedOnly : Descriptors unit string :=
  {| all := Some {| includeAssets := None; excludeAssets := None;
                    rds_attributeDescriptors :=
                      Some {[ "temperature" := temperatureOverride ]};
                    assets := Some {[ "*" := plainAsset ]} |};
     when := None;
     action := None |}.

(** The spec's layered example: both sections include and exclude. *)
Definition layered : Descriptors unit string :=
  {| all := Some {| includeAssets := Some ["A"; "B"]; excludeAssets := Some ["X"];
                    rds_attributeDescriptors := None; assets := None |};
     when := Some {| includeAssets := Some ["C"]; excludeAssets := Some ["Y"];
                     rds_attributeDescriptors := None; assets := None |};
     action := None |}.

(** A registry with a second type info that lacks its descriptor. *)
Definition orphanInfo : AssetTypeInfo :=
  {| assetDescriptor := None; attributeDescriptors := None;
     metaItemDescriptors := None; valueDescriptors := None |}.

Definition orphanStore : Heap unit string :=
  {| infos := [thermostatInfo; orphanInfo]; attrs := [temperature] |}.

Definition orphanCatalog : AssetModelUtil :=
  {| getAssetTypeInfos := [0; 1];
     getAssetDescriptors := [thermostat];
     getAssetTypeInfo := getAssetTypeInfo catalog |}.

(** A descriptor the catalog has no type info for. *)
Definition stranger : AssetDescriptor :=
  {| descriptorType := "asset"; ad_name := Some "StrangerAsset";
     icon := None; colour := None |}.

(** A side section with a ["*"] entry, over an [all] section with an entry
    for the thermostat. *)
Definition sideStar : Descriptors unit string :=
  {| all := Some {| includeAssets := None; excludeAssets := None;
                    rds_attributeDescriptors := None;
                    assets := Some {[ "ThermostatAsset" := anyAsset ]} |};
     when := Some {| includeAssets := None; excludeAssets := None;
                     rds_attributeDescriptors := None;
                     assets := Some {[ "*" := plainAsset ]} |};
     action := None |}.

(** An empty [includeAssets] in the [all] section, a list in the side
    section. *)
Definition unrestricted : Descriptors unit string :=
  {| all := Some {| includeAssets := Some []; excludeAssets := None;
                    rds_attributeDescriptors := None; assets := None |};
     when := Some {| includeAssets := Some ["C"]; excludeAssets := None;
                     rds_attributeDescriptors := None; assets := None |};
     action := None |}.

(** An entry that restyles the asset and hides the attributes it does not
    include. *)
Definition restyled : RulesConfigAsset unit string :=
  {| includeAttributes := Some ["humidity"]; excludeAttributes := None;
     rca_name := None; rca_icon := Some "gauge"; color := Some "";
     rca_attributeDescriptors := None |}.

Definition restyling : Descriptors unit string :=
  {| all := None;
     when := Some {| includeAssets := None; excludeAssets := None;
                     rds_attributeDescriptors := None;
                     assets := Some {[ "ThermostatAsset" := restyled ]} |};
     action := None |}.

(** A catalog with two asset types, one attribute each. *)
Definition boiler : AssetDescriptor :=
  {| descriptorType := "asset"; ad_name := Some "BoilerAsset";
     icon := None; colour := None |}.

Definition pressure : AttributeDescriptor unit string :=
  {| attr_name := Some "pressure"; type := Some "number"; format := None;
     units := None; constraints := None |}.

Definition boilerInfo : AssetTypeInfo :=
  {| assetDescriptor := Some boiler; attributeDescriptors := Some [1];
     metaItemDescriptors := None; valueDescriptors := None |}.

Definition twoStore : Heap unit string :=
  {| infos := [thermostatInfo; boilerInfo]; attrs := [temperature; pressure] |}.

Definition twoCatalog : AssetModelUtil :=
  {| getAssetTypeInfos := [0; 1];
     getAssetDescriptors := [thermostat; boiler];
     getAssetTypeInfo := λ ad,
       if bool_decide (ad_name ad = Some "ThermostatAsset") then Some 0
       else if bool_decide (ad_name ad = Some "BoilerAsset") then Some 1
       else None |}.





(** A component with one ruleset, open in the viewer and edited. *)
Definition rule : Guard.Ruleset string := {| Guard.id := Some 7%Z; Guard.fields := "rule" |}.

Definition node : RulesetNode := {| ruleset := 0; selected := true |}.

Definition editing : Guard.OrRules string :=
  {| Guard.heap := [rule];
     Guard._viewer := {| Guard.modified := true; Guard.viewer_ruleset := Some 0 |};
     Guard.selectedIds := Some [Some 7%Z] |}.

Definition reselect : NodeSelectEventDetail := {| oldNodes := [node]; newNodes := [node] |}.

Definition deselect : NodeSelectEventDetail := {| oldNodes := [node]; newNodes := [] |}.

Definition nothing : NodeSelectEventDetail := {| oldNodes := []; newNodes := [] |}.

End Samples.

(** * Properties *)

(** ** Computations that return *)

Module EffFacts.

Section Facts.
Context {S : Type}.

Lemma bind_returns {A B} (m : Eff S A) (f : A → Eff S B) s a s1 :
  m s = Returns (a, s1) → (m ≫= f) s = f a s1.
Proof. intros Hm. unfold mbind, Eff_bind. by rewrite Hm. Qed.

(** A callback that only reads: [map] collects its values and leaves the
    state alone. *)
Lemma mapM_reads {A B} (f : A → Eff S B) (g : A → B) (l : list A) s :
  Forall (λ x, f x s = Returns (g x, s)) l →
  mapM f l s = Returns (g <$> l, s).
Proof.
  induction 1 as [|x l Hx _ IH]; [done|].
  cbn [mapM]. rewrite (bind_returns _ _ _ _ _ Hx), (bind_returns _ _ _ _ _ IH). done.
Qed.

Lemma filterM_reads {A} (f : A → Eff S bool) (g : A → bool) (l : list A) s :
  Forall (λ x, f x s = Returns (g x, s)) l →
  filterM f l s = Returns (List.filter g l, s).
Proof.
  induction 1 as [|x l Hx _ IH]; [done|].
  cbn [filterM List.filter].
  rewrite (bind_returns _ _ _ _ _ Hx), (bind_returns _ _ _ _ _ IH). done.
Qed.

Lemma forEach_cons {A} (f : A → Eff S unit) x l s :
  forEach f (x :: l) s = (f x ≫= λ _, forEach f l) s.
Proof.
  unfold forEach, mbind, Eff_bind. cbn [mapM]. unfold mbind, Eff_bind.
  destruct (f x s) as [[[] s1]|e]; [|done].
  by destruct (mapM f l s1) as [[ys s2]|e].
Qed.

(** [map] over a list, one state after the other: when every call returns
    from any state that satisfies [I] and re-establishes [I], the whole map
    returns, with one result per element, each produced by its own call. *)
Lemma mapM_returns {A B} (f : A → Eff S B) (I : S → Prop) (l : list A) s :
  I s →
  (∀ x s1, x ∈ l → I s1 → ∃ y s2, f x s1 = Returns (y, s2) ∧ I s2) →
  ∃ ys s', mapM f l s = Returns (ys, s') ∧ I s'
           ∧ Forall2 (λ x y, ∃ s1 s2, f x s1 = Returns (y, s2)) l ys.
Proof.
  intros HI Hf. revert s HI. induction l as [|x l IH]; intros s HI.
  - exists [], s. split_and!; [done|done|constructor].
  - destruct (Hf x s) as (y & s1 & Hx & HI1); [left|done|].
    destruct IH with (s := s1) as (ys & s2 & Hl & HI2 & Hall); [|done|].
    { intros x' s' Hin. apply Hf. by right. }
    exists (y :: ys), s2. split_and!; [|done|].
    + cbn [mapM]. rewrite (bind_returns _ _ _ _ _ Hx), (bind_returns _ _ _ _ _ Hl). done.
    + constructor; [by exists s, s1|done].
Qed.

End Facts.
End EffFacts.

(** ** The resolver *)

Module ResolverSpec.

Import Resolver EffFacts.

Section Properties.
Context {ValueFormat ValueConstraint : Type}.
Variable stringMatch : string → option string → bool.
Variable UNKNOWNASSET : string.

Local Abbreviation Heap := (Resolver.Heap ValueFormat ValueConstraint).
Local Abbreviation Descriptors := (Resolver.Descriptors ValueFormat ValueConstraint).
Local Abbreviation RulesConfig := (Resolver.RulesConfig ValueFormat ValueConstraint).
Local Abbreviation Section_ := (Resolver.RulesDescriptorSection ValueFormat ValueConstraint).
Local Abbreviation AttributeDescriptor := (Resolver.AttributeDescriptor ValueFormat ValueConstraint).

Implicit Types (h : Heap) (d : Descriptors) (c : RulesConfig) (catalog : AssetModelUtil)
  (ad : AssetDescriptor) (section : option Section_).

(** *** [getAssetTypes] only reads *)

Lemma descriptorName_returns (ti : AssetTypeInfo) ad h :
  assetDescriptor ti = Some ad →
  descriptorName ti h = Returns (ad_name ad, h).
Proof. intros Hd. unfold descriptorName. by rewrite Hd. Qed.

Lemma filter_fmap {A B} (f : A → B) (g : B → bool) (l : list A) :
  List.filter g (f <$> l) = f <$> List.filter (λ x, g (f x)) l.
Proof.
  induction l as [|x l IH]; [done|]. cbn. rewrite IH. by destruct (g (f x)).
Qed.

(** The default list: the names of the registered type infos, in order,
    without the unknown asset type; the store is not written. *)
Lemma getAssetTypes_names catalog h :
  registered h catalog →
  getAssetTypes UNKNOWNASSET catalog h
  = Returns (List.filter (λ n, bool_decide (n ≠ Some UNKNOWNASSET))
                         (registeredName h <$> getAssetTypeInfos catalog), h).
Proof.
  unfold registered, getAssetTypes. intros Hreg.
  set (info := λ r : Ref, default (Build_AssetTypeInfo None None None None) (infos h !! r)).
  set (name := λ ti : AssetTypeInfo, assetDescriptor ti ≫= ad_name).
  assert (Hread : mapM readInfo (getAssetTypeInfos catalog) h
                  = Returns (info <$> getAssetTypeInfos catalog, h)).
  { apply mapM_reads. eapply Forall_impl; [exact Hreg|].
    intros r (ti & ad & Hr & _). unfold readInfo, info. by rewrite Hr. }
  assert (Hnames : Forall (λ ti : AssetTypeInfo, descriptorName ti h = Returns (name ti, h))
                          (info <$> getAssetTypeInfos catalog)).
  { apply Forall_fmap. eapply Forall_impl; [exact Hreg|].
    intros r (ti & ad & Hr & Had). cbn. unfold info, name. rewrite Hr. cbn.
    rewrite Had. by apply descriptorName_returns. }
  rewrite (bind_returns _ _ _ _ _ Hread).
  erewrite bind_returns; last first.
  { apply (filterM_reads _ (λ ti, bool_decide (name ti ≠ Some UNKNOWNASSET))).
    eapply Forall_impl; [exact Hnames|]. intros ti Hti. cbn in *.
    by rewrite (bind_returns _ _ _ _ _ Hti). }
  erewrite mapM_reads; last first.
  { apply List.Forall_forall. intros ti Hin. apply List.filter_In in Hin as [Hin _].
    revert ti Hin. apply List.Forall_forall. exact Hnames. }
  f_equal. f_equal.
  pose (keep := λ n : option string, bool_decide (n ≠ Some UNKNOWNASSET)).
  etransitivity; [symmetry; apply (filter_fmap name keep)|].
  f_equal. rewrite <- list_fmap_compose. apply Forall_fmap_ext.
  eapply Forall_impl; [exact Hreg|].
  intros r (ti & ad & Hr & Had). cbn. unfold name, info, registeredName.
  rewrite Hr. cbn. by rewrite Had.
Qed.

Lemma getAssetTypes_returns catalog h :
  registered h catalog →
  ∃ names, getAssetTypes UNKNOWNASSET catalog h = Returns (names, h).
Proof. intros Hreg. eexists. by apply getAssetTypes_names. Qed.

(** *** The allow list *)

(** C2. When both the side-specific section and the [all] section define
    [includeAssets], the allow list is the [all] section's list alone; when
    only one of them defines it, the allow list is that list; when neither
    does, it is the default list of available asset type names. *)
Theorem allow_list_precedence d (useActionConfig : bool) (available : list (option string)) :
  let section := if useActionConfig then action d else when d in
  let allowed := allowedAssetTypes d section available in
  (∀ side all_, section ≫= includeAssets = Some side →
                all d ≫= includeAssets = Some all_ →
                allowed = Some <$> all_)
  ∧ (∀ side, section ≫= includeAssets = Some side →
             all d ≫= includeAssets = None →
             allowed = Some <$> side)
  ∧ (∀ all_, section ≫= includeAssets = None →
             all d ≫= includeAssets = Some all_ →
             allowed = Some <$> all_)
  ∧ (section ≫= includeAssets = None →
     all d ≫= includeAssets = None →
     allowed = available).
Proof.
  intros section allowed. subst allowed. unfold allowedAssetTypes.
  split_and!.
  - intros side all_ Hs Ha. by rewrite Hs, Ha.
  - intros side Hs Ha. by rewrite Hs, Ha.
  - intros all_ Hs Ha. by rewrite Hs, Ha.
  - intros Hs Ha. by rewrite Hs, Ha.
Qed.

(** *** No configuration *)

(** C5. With no [config], or a config without [descriptors], the resolver
    returns the catalog's own type info for every descriptor, in the
    catalog's order, and writes nothing. *)
Theorem no_config_returns_catalog catalog (config : option RulesConfig)
    (useActionConfig : bool) h :
  config ≫= descriptors = None →
  registered h catalog →
  getAssetInfos stringMatch UNKNOWNASSET catalog config useActionConfig h
  = Returns (getAssetTypeInfo catalog <$> getAssetDescriptors catalog, h).
Proof.
  intros Hconfig Hreg.
  destruct (getAssetTypes_returns catalog h Hreg) as [names Hnames].
  unfold getAssetInfos. rewrite (bind_returns _ _ _ _ _ Hnames).
  destruct config as [c|]; [|done].
  cbn in Hconfig. by rewrite Hconfig.
Qed.

(** *** The override descriptor *)

(** C6. The override descriptor is the first defined among the side
    section's entry for the type, the side section's ["*"] entry, the [all]
    section's entry for the type and the [all] section's ["*"] entry; when
    there is none, the callback returns the catalog's type info itself and
    leaves the store as it was. *)
Theorem override_lookup_order d (useActionConfig : bool) :
  let section := if useActionConfig then action d else when d in
  let config := {| descriptors := Some d |} in
  (∀ assetType,
     getAssetDescriptorFromSection assetType (Some config) useActionConfig
     = firstDefined [assetsEntry section assetType; assetsEntry section "*";
                     assetsEntry (all d) assetType; assetsEntry (all d) "*"])
  ∧ (∀ catalog ad h,
       assetsEntry section (propKey (ad_name ad)) = None →
       assetsEntry section "*" = None →
       assetsEntry (all d) (propKey (ad_name ad)) = None →
       assetsEntry (all d) "*" = None →
       amalgamate stringMatch catalog config d useActionConfig ad h
       = Returns (getAssetTypeInfo catalog ad, h)).
Proof.
  intros section config.
  assert (Hlookup : ∀ assetType,
     getAssetDescriptorFromSection assetType (Some config) useActionConfig
     = firstDefined [assetsEntry section assetType; assetsEntry section "*";
                     assetsEntry (all d) assetType; assetsEntry (all d) "*"]).
  { intros assetType. unfold getAssetDescriptorFromSection, assetsEntry. cbn.
    fold section.
    destruct (section ≫= assets) as [a|]; cbn;
      destruct (all d ≫= assets) as [b|]; cbn;
      repeat case_match; simplify_eq; done. }
  split; [exact Hlookup|].
  intros catalog ad h H1 H2 H3 H4.
  unfold amalgamate. rewrite Hlookup, H1, H2, H3, H4. done.
Qed.

(** *** The attribute callbacks *)

Lemma attributeIncluded_reads (inc exc : option (list string)) (l : list Ref) h :
  Forall (λ a, is_Some (attrs h !! a)) l →
  ∃ keep, filterM (attributeIncluded stringMatch inc exc) l h
          = Returns (List.filter keep l, h).
Proof.
  intros Hl.
  set (name := λ r : Ref, attrs h !! r ≫= attr_name).
  eexists (λ r, (if inc is Some inc then existsb (λ i, stringMatch i (name r)) inc else true)
                && (if exc is Some exc
                    then negb (existsb (λ e, stringMatch e (name r)) exc) else true)).
  apply filterM_reads. eapply Forall_impl; [exact Hl|].
  intros r [a Ha]. cbn. unfold attributeIncluded, readAttr, name.
  unfold mbind at 1, Eff_bind. by rewrite Ha.
Qed.

Lemma overrideAttribute_returns own d section (r : Ref) h (a : AttributeDescriptor) :
  attrs h !! r = Some a →
  overrideAttribute own d section r h
  = Returns ((), {| infos := infos h;
                    attrs := <[r := overridden own d section a]> (attrs h) |}).
Proof.
  intros Ha. unfold overrideAttribute, overridden, readAttr.
  unfold mbind, Eff_bind. rewrite Ha.
  destruct (findConfigAttribute own d section (attr_name a)) as [c|].
  - unfold writeAttr. by rewrite Ha.
  - rewrite list_insert_id by done. by destruct h.
Qed.

(** The override pass over the attribute array: it returns, it keeps the
    store's shape, it leaves the objects outside the array alone, and it
    writes each object of a duplicate-free array exactly once. *)
Lemma forEach_overrideAttribute own d section (l : list Ref) h :
  Forall (λ a, is_Some (attrs h !! a)) l →
  ∃ h', forEach (overrideAttribute own d section) l h = Returns ((), h')
        ∧ infos h' = infos h
        ∧ length (attrs h') = length (attrs h)
        ∧ (∀ a, a ∉ l → attrs h' !! a = attrs h !! a)
        ∧ (NoDup l → ∀ a native, a ∈ l → attrs h !! a = Some native →
           attrs h' !! a = Some (overridden own d section native)).
Proof.
  revert h. induction l as [|r l IH]; intros h Hl.
  { exists h. split_and!; try done. intros _ a native Hin. by apply elem_of_nil in Hin. }
  apply Forall_cons in Hl as [[a0 Hr] Hl].
  pose proof (overrideAttribute_returns own d section r h a0 Hr) as Hstep.
  set (h1 := {| infos := infos h;
                attrs := <[r := overridden own d section a0]> (attrs h) |}) in *.
  destruct (IH h1) as (h' & Hrun & Hinfos & Hlen & Hout & Hin).
  { eapply Forall_impl; [exact Hl|]. intros a. cbn.
    rewrite !lookup_lt_is_Some, length_insert. done. }
  exists h'. rewrite forEach_cons, (bind_returns _ _ _ _ _ Hstep).
  split_and!; [done|by rewrite Hinfos|by rewrite Hlen; cbn; rewrite length_insert| |].
  - intros a Ha. apply not_elem_of_cons in Ha as [Hne Ha].
    rewrite Hout by done. cbn. by rewrite list_lookup_insert_ne.
  - intros Hnd a native Ha Hnative. apply NoDup_cons in Hnd as [Hr_l Hnd].
    apply elem_of_cons in Ha as [->|Ha].
    + rewrite Hout by done. cbn.
      rewrite list_lookup_insert_eq by (by apply lookup_lt_is_Some).
      congruence.
    + apply Hin; [done|done|]. cbn.
      rewrite list_lookup_insert_ne by (intros ->; done). done.
Qed.

(** *** The descriptor callback when an override exists *)

Lemma filter_sublist {A} (g : A → bool) (l : list A) : List.filter g l `sublist_of` l.
Proof.
  induction l as [|x l IH]; cbn; [done|].
  destruct (g x); by constructor.
Qed.

Lemma amalgamate_override catalog c d (useActionConfig : bool) ad h cd (r : Ref)
    (ti : AssetTypeInfo) :
  let section := if useActionConfig then action d else when d in
  getAssetDescriptorFromSection (propKey (ad_name ad)) (Some c) useActionConfig = Some cd →
  getAssetTypeInfo catalog ad = Some r →
  infos h !! r = Some ti →
  Forall (λ a, is_Some (attrs h !! a)) (default [] (attributeDescriptors ti)) →
  ∃ h' ti' l',
    amalgamate stringMatch catalog c d useActionConfig ad h
    = Returns (Some (length (infos h)), h')
    ∧ infos h' = infos h ++ [ti']
    ∧ attributeDescriptors ti' = Some l'
    ∧ l' `sublist_of` default [] (attributeDescriptors ti)
    ∧ length (attrs h') = length (attrs h)
    ∧ (∀ a, a ∉ l' → attrs h' !! a = attrs h !! a)
    ∧ (∀ own, rca_attributeDescriptors cd = Some own → NoDup l' →
       ∀ a native, a ∈ l' → attrs h !! a = Some native →
       attrs h' !! a = Some (overridden own d section native))
    ∧ (rca_attributeDescriptors cd = None → attrs h' = attrs h).
Proof.
  intros section Hcd Hr Hti Hvalid. unfold amalgamate. rewrite Hcd, Hr.
  assert (Hread : (r0 ← deref (Some r); readInfo r0) h = Returns (ti, h)).
  { cbn. unfold mbind, Eff_bind, mret, Eff_ret, readInfo. by rewrite Hti. }
  rewrite (bind_returns _ _ _ _ _ Hread). clear Hread.
  set (l := default [] (attributeDescriptors ti)) in *.
  assert (Hfilter : ∃ l', (if defined (includeAttributes cd) || defined (excludeAttributes cd)
                           then filterM (attributeIncluded stringMatch (includeAttributes cd)
                                           (excludeAttributes cd)) l
                           else mret l) h = Returns (l', h) ∧ l' `sublist_of` l).
  { destruct (defined (includeAttributes cd) || defined (excludeAttributes cd)).
    - destruct (attributeIncluded_reads (includeAttributes cd) (excludeAttributes cd) l h Hvalid)
        as [keep Hkeep].
      eexists. split; [exact Hkeep|apply filter_sublist].
    - by exists l. }
  destruct Hfilter as (l' & Hfilter & Hsub).
  rewrite (bind_returns _ _ _ _ _ Hfilter). clear Hfilter.
  assert (Hvalid' : Forall (λ a, is_Some (attrs h !! a)) l').
  { apply Forall_forall. intros a Ha. revert Hvalid. rewrite Forall_forall.
    intros Hvalid. apply Hvalid. by eapply elem_of_sublist. }
  destruct (rca_attributeDescriptors cd) as [own|] eqn:Hown.
  - destruct (forEach_overrideAttribute own d section l' h Hvalid')
      as (h1 & Hrun & Hinfos & Hlen & Hout & Hin).
    rewrite (bind_returns _ _ _ _ _ Hrun).
    unfold mbind at 1, Eff_bind, allocInfo. cbn. rewrite Hinfos.
    eexists _, _, l'. split_and!; try done.
    + intros own' [= <-]. exact Hin.
  - unfold mbind, Eff_bind, allocInfo. cbn.
    eexists _, _, l'. split_and!; try done.
Qed.

(** A descriptor the catalog describes keeps being described after a call
    of the callback, and the callback returns on it. *)
Lemma described_preserved catalog ad h h' :
  described h catalog ad →
  infos h `prefix_of` infos h' →
  length (attrs h') = length (attrs h) →
  described h' catalog ad.
Proof.
  intros (r & ti & Hr & Hti & Hvalid) Hpre Hlen.
  exists r, ti. split_and!; [done|by eapply prefix_lookup_Some|].
  eapply Forall_impl; [exact Hvalid|]. intros a. cbn.
  rewrite !lookup_lt_is_Some. lia.
Qed.

Lemma amalgamate_returns catalog c d (useActionConfig : bool) ad h :
  described h catalog ad →
  ∃ result h', amalgamate stringMatch catalog c d useActionConfig ad h = Returns (result, h')
               ∧ infos h `prefix_of` infos h'
               ∧ length (attrs h') = length (attrs h).
Proof.
  intros (r & ti & Hr & Hti & Hvalid).
  destruct (getAssetDescriptorFromSection (propKey (ad_name ad)) (Some c) useActionConfig)
    as [cd|] eqn:Hcd.
  - destruct (amalgamate_override catalog c d useActionConfig ad h cd r ti Hcd Hr Hti Hvalid)
      as (h' & ti' & l' & Hrun & Hinfos & _ & _ & Hlen & _).
    exists (Some (length (infos h))), h'. split_and!; [done| |done].
    rewrite Hinfos. by apply prefix_app_r.
  - exists (getAssetTypeInfo catalog ad), h. unfold amalgamate. rewrite Hcd. done.
Qed.

(** *** Filtering the catalog *)

Lemma excludedAssetTypes_union d section (name : option string) :
  name ∈ excludedAssetTypes d section
  ↔ name ∈ Some <$> default [] (section ≫= excludeAssets)
    ∨ name ∈ Some <$> default [] (all d ≫= excludeAssets).
Proof.
  unfold excludedAssetTypes.
  destruct (section ≫= excludeAssets) as [side|], (all d ≫= excludeAssets) as [all_|];
    cbn [default]; rewrite ?elem_of_app, ?fmap_nil, ?elem_of_nil; tauto.
Qed.

Lemma isIncluded_spec (allowed excluded : list (option string)) ad :
  isIncluded allowed excluded ad
  ↔ (allowed = [] ∨ ad_name ad ∈ allowed) ∧ ad_name ad ∉ excluded.
Proof.
  unfold isIncluded, notIndexOf.
  destruct allowed as [|n allowed]; cbn.
  - rewrite bool_decide_spec. intuition.
  - case_bool_decide as Hin; cbn.
    + split; [done|]. intros [[|] _]; done.
    + rewrite bool_decide_spec. intuition.
Qed.

End Properties.

(** *** On the sample catalog *)

Import Samples.

Lemma store_registered : registered store catalog.
Proof. repeat constructor. by exists thermostatInfo, thermostat. Qed.

Lemma store_described : Forall (described store catalog) (getAssetDescriptors catalog).
Proof.
  repeat constructor. exists 0, thermostatInfo.
  split_and!; [done|done|]. repeat constructor. by exists temperature.
Qed.

Example resolve_sample :
  getAssetInfos exactMatch UNKNOWNASSET catalog (Some config) false store
  = Returns ([Some 1],
             {| infos := [thermostatInfo;
                          {| assetDescriptor := Some thermostat;
                             attributeDescriptors := Some [0];
                             metaItemDescriptors := Some [];
                             valueDescriptors := Some [] |}];
                attrs := [{| attr_name := Some "temperature"; type := Some "number";
                             format := None; units := None;
                             constraints := Some ["c2"; "c1"] |}] |}).
Proof. vm_compute. reflexivity. Qed.

(** The shared dictionaries are consulted from inside the pass over the
    asset entry's own dictionary (line 290): without one, nothing is
    overridden. *)
Example shared_dictionary_alone :
  getAssetInfos exactMatch UNKNOWNASSET catalog
                (Some {| descriptors := Some sharedOnly |}) false store
  = Returns ([Some 1],
             {| infos := [thermostatInfo;
                          {| assetDescriptor := Some thermostat;
                             attributeDescriptors := Some [0];
                             metaItemDescriptors := Some [];
                             valueDescriptors := Some [] |}];
                attrs := [temperature] |}).
Proof. vm_compute. reflexivity. Qed.

(** An override whose type is the empty string fails the test of line 300
    and leaves the type. *)
Example empty_type_not_assigned :
  type (assignOverrides {| attr_name := None; type := Some ""; format := None;
                           units := None; constraints := None |} temperature)
  = Some "number".
Proof. reflexivity. Qed.

Example layered_allow_list :
  allowedAssetTypes layered (when layered) [Some "ThermostatAsset"]
  = [Some "A"; Some "B"].
Proof. reflexivity. Qed.

Example layered_exclusions :
  excludedAssetTypes layered (when layered) = [Some "Y"; Some "X"].
Proof. reflexivity. Qed.

Example layered_hides_thermostat :
  getAssetInfos exactMatch UNKNOWNASSET catalog
                (Some {| descriptors := Some layered |}) false store
  = Returns ([], store).
Proof. vm_compute. reflexivity. Qed.

(** C1, on the code.  Resolving the sample catalog against the sample
    config writes to the catalog's own attribute descriptor object: its
    constraints are ["c1"] before the call, ["c2"; "c1"] after it and
    ["c2"; "c2"; "c1"] after a second call with the same arguments.  So the
    catalog's type info does not read the same after a call, and the result
    of the first call, as it read when it was returned, is not the result of
    the second as it read when that was returned.  (Both results refer to
    the one overwritten object: read in the final store they agree.) *)
Theorem catalog_attribute_overwritten :
  ∃ results1 h1 results2 h2,
    getAssetInfos exactMatch UNKNOWNASSET catalog (Some config) false store
    = Returns (results1, h1)
    ∧ getAssetInfos exactMatch UNKNOWNASSET catalog (Some config) false h1
      = Returns (results2, h2)
    ∧ constraints <$> attrs store !! 0 = Some (Some ["c1"])
    ∧ constraints <$> attrs h1 !! 0 = Some (Some ["c2"; "c1"])
    ∧ constraints <$> attrs h2 !! 0 = Some (Some ["c2"; "c2"; "c1"])
    ∧ snapshot h1 (getAssetTypeInfo catalog thermostat)
      ≠ snapshot store (getAssetTypeInfo catalog thermostat)
    ∧ snapshot h2 <$> results2 ≠ snapshot h1 <$> results1
    ∧ snapshot h2 <$> results2 = snapshot h2 <$> results1.
Proof.
  eexists _, _, _, _. split; [exact resolve_sample|].
  split; [vm_compute; reflexivity|].
  split_and!; [done|done|done| | |done]; vm_compute; intros [=].
Qed.

Lemma no_config_returns_catalog_witness :
  getAssetInfos exactMatch UNKNOWNASSET catalog None true store
  = Returns ([Some 0], store).
Proof.
  exact (no_config_returns_catalog exactMatch UNKNOWNASSET catalog None true store
           eq_refl store_registered).
Defined.

End ResolverSpec.

(** ** The request events *)

Module EventsSpec.

Import Events.

(** C9. Each of the four request events is constructed with its [allow]
    flag set to [true]. *)
Theorem requests_start_allowed :
  (∀ request, allow (event_detail (OrRulesRequestSelectionEvent request)) = true)
  ∧ (∀ detail, allow (event_detail (OrRulesRequestAddEvent detail)) = true)
  ∧ (∀ request, allow (event_detail (OrRulesRequestDeleteEvent request)) = true)
  ∧ (∀ ruleset, allow (event_detail (OrRulesRequestSaveEvent ruleset)) = true).
Proof. split_and!; intros x; reflexivity. Qed.

End EventsSpec.

(** ** The selection guard *)

Module GuardSpec.

Import Events Guard EffFacts.

Section Properties.
Context {RulesetFields : Type} `{EqDecision RulesetFields}.

Local Abbreviation OrRules := (Guard.OrRules RulesetFields).
Local Abbreviation Ruleset := (Guard.Ruleset RulesetFields).
Local Abbreviation SelectionRequest := (CustomEvent (RequestEventDetail NodeSelectEventDetail)).

Implicit Types (this later : OrRules) (event : SelectionRequest).

(** The handler's synchronous part. *)
Lemma unmodified_request_passes this event :
  modified (_viewer this) = false →
  _onRuleSelectionRequested event this = Returns ((event, Settled), this).
Proof.
  intros Hm. unfold _onRuleSelectionRequested, mbind, Eff_bind, get. by rewrite Hm.
Qed.

Lemma modified_request_vetoed this event :
  modified (_viewer this) = true →
  _onRuleSelectionRequested event this
  = Returns ((disallow event,
              OkCancelDialog "loseChanges" "confirmContinueRulesetModified"
                (λ ok, if ok : bool then selectionAction (disallow event) else mret ())),
             this).
Proof.
  intros Hm. unfold _onRuleSelectionRequested, _confirmContinue, mbind, Eff_bind, get.
  rewrite Hm. cbn. by rewrite Hm.
Qed.

(** The two branches of the confirmed action. *)
Lemma reload_copies_first_node event later (node : RulesetNode) rest (x : Ruleset) :
  newNodes (detail (event_detail event)) = node :: rest →
  objectsEqual (heap later) (node :: rest) (oldNodes (detail (event_detail event))) = true →
  heap later !! ruleset node = Some x →
  selectionAction event later
  = Returns ((), {| heap := heap later ++ [x];
                    _viewer := {| modified := modified (_viewer later);
                                  viewer_ruleset := Some (length (heap later)) |};
                    selectedIds := selectedIds later |}).
Proof.
  intros Hnodes Heq Hx. unfold selectionAction. rewrite Hnodes.
  unfold mbind at 1, Eff_bind, get. rewrite Heq. cbn [lookup list_lookup].
  unfold copyRuleset, readRuleset, allocRuleset, setViewerRuleset, mbind, Eff_bind.
  by rewrite Hx.
Qed.

Lemma read_ids later (nodes : list RulesetNode) (xs : list Ruleset) :
  Forall2 (λ node x, heap later !! ruleset node = Some x) nodes xs →
  mapM (λ node, x ← readRuleset (ruleset node); mret (id x)) nodes later
  = Returns (id <$> xs, later).
Proof.
  induction 1 as [|node x nodes xs Hx _ IH]; [done|].
  cbn [mapM]. erewrite bind_returns; last first.
  { unfold readRuleset, mbind, Eff_bind. rewrite Hx. reflexivity. }
  by rewrite (bind_returns _ _ _ _ _ IH).
Qed.

Lemma select_other_nodes event later (xs : list Ruleset) :
  let nodes := newNodes (detail (event_detail event)) in
  objectsEqual (heap later) nodes (oldNodes (detail (event_detail event))) = false →
  Forall2 (λ node x, heap later !! ruleset node = Some x) nodes xs →
  selectionAction event later
  = Returns ((), {| heap := heap later;
                    _viewer := {| modified := modified (_viewer later);
                                  viewer_ruleset :=
                                    match nodes with
                                    | [node] => Some (ruleset node)
                                    | _ => None
                                    end |};
                    selectedIds := Some (id <$> xs) |}).
Proof.
  intros nodes Hne Hxs. unfold selectionAction. fold nodes.
  unfold mbind at 1, Eff_bind, get. rewrite Hne.
  rewrite (bind_returns _ _ _ _ _ (read_ids later nodes xs Hxs)).
  unfold setSelectedIds, setViewerRuleset, mbind, Eff_bind. cbn.
  by destruct nodes as [|node [|node' nodes']].
Qed.

Lemma reload_without_node event later :
  newNodes (detail (event_detail event)) = [] →
  oldNodes (detail (event_detail event)) = [] →
  selectionAction event later = Throws TypeError.
Proof.
  intros Hnew Hold. unfold selectionAction. by rewrite Hnew, Hold.
Qed.

Lemma cancel_changes_nothing event later :
  resolveDialog
    (OkCancelDialog "loseChanges" "confirmContinueRulesetModified"
       (λ ok, if ok : bool then selectionAction event else mret ()))
    false later
  = Returns ((), later).
Proof. reflexivity. Qed.

(** C7. While the viewer is modified, a selection request is vetoed and a
    confirmation is prompted, the component staying as it was.  When the
    user confirms and the new nodes are deep-equal to the old ones, the
    viewer gets a new ruleset object, not in the store before, with the
    contents of the first node's ruleset, and [selectedIds] stays; when they
    differ, [selectedIds] becomes the ids of the new nodes' rulesets and the
    viewer gets the ruleset of the node when there is exactly one, and none
    otherwise. *)
Theorem modified_selection_guard this event :
  modified (_viewer this) = true →
  ∃ onResolved,
    _onRuleSelectionRequested event this
    = Returns ((disallow event,
                OkCancelDialog "loseChanges" "confirmContinueRulesetModified" onResolved),
               this)
    ∧ allow (event_detail (disallow event)) = false
    ∧ ∀ later,
        let nodes := newNodes (detail (event_detail event)) in
        let old := oldNodes (detail (event_detail event)) in
        (objectsEqual (heap later) nodes old = true →
         ∀ (node : RulesetNode) rest (x : Ruleset),
           nodes = node :: rest →
           heap later !! ruleset node = Some x →
           heap later !! length (heap later) = None
           ∧ (heap later ++ [x]) !! length (heap later) = Some x
           ∧ onResolved true later
             = Returns ((), {| heap := heap later ++ [x];
                               _viewer := {| modified := modified (_viewer later);
                                             viewer_ruleset := Some (length (heap later)) |};
                               selectedIds := selectedIds later |}))
        ∧ (objectsEqual (heap later) nodes old = false →
           ∀ xs : list Ruleset,
             Forall2 (λ node x, heap later !! ruleset node = Some x) nodes xs →
             onResolved true later
             = Returns ((), {| heap := heap later;
                               _viewer := {| modified := modified (_viewer later);
                                             viewer_ruleset :=
                                               match nodes with
                                               | [node] => Some (ruleset node)
                                               | _ => None
                                               end |};
                               selectedIds := Some (id <$> xs) |})).
Proof.
  intros Hm. eexists. split; [by apply modified_request_vetoed|].
  split; [done|]. intros later nodes old. split.
  - intros Heq node rest x Hnodes Hx. split_and!.
    + by apply lookup_ge_None.
    + by apply list_lookup_middle.
    + apply (reload_copies_first_node (disallow event) later node rest x);
        [done|by rewrite <- Hnodes|done].
  - intros Hne xs Hxs. by apply (select_other_nodes (disallow event)).
Qed.

(** C8. While the viewer is modified, cancelling the prompt raised by a
    selection request changes nothing: the request left the component as it
    was, and so does the cancelled prompt, whenever it is resolved. *)
Theorem cancel_keeps_selection this event :
  modified (_viewer this) = true →
  ∃ pending,
    _onRuleSelectionRequested event this = Returns ((disallow event, pending), this)
    ∧ pending ≠ Settled
    ∧ (∀ later, resolveDialog pending false later = Returns ((), later))
    ∧ ∃ after,
        resolveDialog pending false this = Returns ((), after)
        ∧ selectedIds after = selectedIds this
        ∧ viewer_ruleset (_viewer after) = viewer_ruleset (_viewer this).
Proof.
  intros Hm. eexists. split; [by apply modified_request_vetoed|].
  split; [done|]. split; [done|]. by exists this.
Qed.

(** C10. The reload branch reads the first of the new nodes: with a
    confirmed request whose old and new node lists are both empty, the lists
    are deep-equal and the action throws a [TypeError]; with deep-equal
    lists that have a first node, it returns. *)
Theorem reload_needs_first_node this event :
  modified (_viewer this) = true →
  ∃ pending,
    _onRuleSelectionRequested event this = Returns ((disallow event, pending), this)
    ∧ ∀ later,
        let nodes := newNodes (detail (event_detail event)) in
        let old := oldNodes (detail (event_detail event)) in
        (nodes = [] → old = [] →
         objectsEqual (heap later) nodes old = true
         ∧ resolveDialog pending true later = Throws TypeError)
        ∧ (∀ (node : RulesetNode) rest,
             nodes = node :: rest →
             objectsEqual (heap later) nodes old = true →
             is_Some (heap later !! ruleset node) →
             ∃ after, resolveDialog pending true later = Returns ((), after)).
Proof.
  intros Hm. eexists. split; [by apply modified_request_vetoed|].
  intros later nodes old. split.
  - intros Hnew Hold. split; [by rewrite Hnew, Hold|].
    by apply reload_without_node.
  - intros node rest Hnodes Heq [x Hx]. eexists. cbn.
    apply (reload_copies_first_node (disallow event) later node rest x);
      [done|by rewrite <- Hnodes|done].
Qed.

End Properties.

(** *** On the sample component *)

Import Samples.

Example reselect_confirmed :
  resolveDialog
    (OkCancelDialog "loseChanges" "confirmContinueRulesetModified"
       (λ ok, if ok : bool
              then selectionAction (disallow (OrRulesRequestSelectionEvent reselect))
              else mret ()))
    true editing
  = Returns ((), {| heap := [rule; rule];
                    _viewer := {| modified := true; viewer_ruleset := Some 1 |};
                    selectedIds := Some [Some 7%Z] |}).
Proof. vm_compute. reflexivity. Qed.

Example deselect_confirmed :
  selectionAction (disallow (OrRulesRequestSelectionEvent deselect)) editing
  = Returns ((), {| heap := [rule];
                    _viewer := {| modified := true; viewer_ruleset := None |};
                    selectedIds := Some [] |}).
Proof. vm_compute. reflexivity. Qed.

Example nothing_confirmed :
  selectionAction (disallow (OrRulesRequestSelectionEvent nothing)) editing
  = Throws TypeError.
Proof. vm_compute. reflexivity. Qed.

Lemma modified_selection_guard_witness :
  ∃ onResolved,
    _onRuleSelectionRequested (OrRulesRequestSelectionEvent reselect) editing
    = Returns ((disallow (OrRulesRequestSelectionEvent reselect),
                OkCancelDialog "loseChanges" "confirmContinueRulesetModified" onResolved),
               editing)
    ∧ allow (event_detail (disallow (OrRulesRequestSelectionEvent reselect))) = false
    ∧ ∀ later : Guard.OrRules string,
        (objectsEqual (heap later) [node] [node] = true →
         ∀ (node' : RulesetNode) rest (x : Guard.Ruleset string),
           [node] = node' :: rest →
           heap later !! ruleset node' = Some x →
           heap later !! length (heap later) = None
           ∧ (heap later ++ [x]) !! length (heap later) = Some x
           ∧ onResolved true later
             = Returns ((), {| heap := heap later ++ [x];
                               _viewer := {| modified := modified (_viewer later);
                                             viewer_ruleset := Some (length (heap later)) |};
                               selectedIds := selectedIds later |}))
        ∧ (objectsEqual (heap later) [node] [node] = false →
           ∀ xs : list (Guard.Ruleset string),
             Forall2 (λ node' x, heap later !! ruleset node' = Some x) [node] xs →
             onResolved true later
             = Returns ((), {| heap := heap later;
                               _viewer := {| modified := modified (_viewer later);
                                             viewer_ruleset := Some (ruleset node) |};
                               selectedIds := Some (id <$> xs) |})).
Proof.
  exact (modified_selection_guard editing (OrRulesRequestSelectionEvent reselect) eq_refl).
Defined.

Lemma cancel_keeps_selection_witness :
  ∃ pending,
    _onRuleSelectionRequested (OrRulesRequestSelectionEvent deselect) editing
    = Returns ((disallow (OrRulesRequestSelectionEvent deselect), pending), editing)
    ∧ pending ≠ Settled
    ∧ (∀ later, resolveDialog pending false later = Returns ((), later))
    ∧ ∃ after,
        resolveDialog pending false editing = Returns ((), after)
        ∧ selectedIds after = Some [Some 7%Z]
        ∧ viewer_ruleset (_viewer after) = Some 0.
Proof.
  exact (cancel_keeps_selection editing (OrRulesRequestSelectionEvent deselect) eq_refl).
Defined.

Lemma reload_needs_first_node_witness :
  ∃ pending,
    _onRuleSelectionRequested (OrRulesRequestSelectionEvent nothing) editing
    = Returns ((disallow (OrRulesRequestSelectionEvent nothing), pending), editing)
    ∧ ∀ later : Guard.OrRules string,
        (@nil RulesetNode = [] → @nil RulesetNode = [] →
         objectsEqual (heap later) [] [] = true
         ∧ resolveDialog pending true later = Throws TypeError)
        ∧ (∀ (node' : RulesetNode) rest,
             [] = node' :: rest →
             objectsEqual (heap later) [] [] = true →
             is_Some (heap later !! ruleset node') →
             ∃ after, resolveDialog pending true later = Returns ((), after)).
Proof.
  exact (reload_needs_first_node editing (OrRulesRequestSelectionEvent nothing) eq_refl).
Defined.

End GuardSpec.

(** * Further properties *)

(** ** More on computations *)

Module EffMore.

Import EffFacts.

Section Facts.
Context {S : Type}.

(** [map] with an invariant on the state and a relation between each
    element and its result. *)
Lemma mapM_invariant {A B} (f : A → Eff S B) (I : S → Prop) (Q : A → B → Prop)
    (l : list A) s :
  I s →
  (∀ x s1, x ∈ l → I s1 → ∃ y s2, f x s1 = Returns (y, s2) ∧ I s2 ∧ Q x y) →
  ∃ ys s', mapM f l s = Returns (ys, s') ∧ I s' ∧ Forall2 Q l ys.
Proof.
  intros HI Hf. revert s HI. induction l as [|x l IH]; intros s HI.
  - exists [], s. split_and!; [done|done|constructor].
  - destruct (Hf x s) as (y & s1 & Hx & HI1 & HQ); [left|done|].
    destruct IH with (s := s1) as (ys & s2 & Hl & HI2 & Hall); [|done|].
    { intros x' s' Hin. apply Hf. by right. }
    exists (y :: ys), s2. split_and!; [|done|by constructor].
    cbn [mapM]. rewrite (bind_returns _ _ _ _ _ Hx), (bind_returns _ _ _ _ _ Hl). done.
Qed.

(** A filter whose callback reads until it throws: the filter throws. *)
Lemma filterM_throws {A} (f : A → Eff S bool) (l : list A) s e :
  Forall (λ x, (∃ b, f x s = Returns (b, s)) ∨ f x s = Throws e) l →
  Exists (λ x, f x s = Throws e) l →
  filterM f l s = Throws e.
Proof.
  induction 1 as [|x l Hx _ IH]; intros Hex; [by apply Exists_nil in Hex|].
  cbn [filterM]. unfold mbind at 1, Eff_bind.
  destruct Hx as [[b Hx]|Hx]; rewrite Hx; [|done].
  apply Exists_cons in Hex as [Hex|Hex]; [congruence|].
  unfold mbind, Eff_bind. by rewrite (IH Hex).
Qed.

End Facts.
End EffMore.

(** ** More on the resolver *)

Module ResolverMore.

Import Resolver EffFacts EffMore ResolverSpec.

Section Properties.
Context {ValueFormat ValueConstraint : Type}.
Variable stringMatch : string → option string → bool.
Variable UNKNOWNASSET : string.

Local Abbreviation Heap := (Resolver.Heap ValueFormat ValueConstraint).
Local Abbreviation Descriptors := (Resolver.Descriptors ValueFormat ValueConstraint).
Local Abbreviation RulesConfig := (Resolver.RulesConfig ValueFormat ValueConstraint).
Local Abbreviation Section_ := (Resolver.RulesDescriptorSection ValueFormat ValueConstraint).
Local Abbreviation AttributeDescriptor := (Resolver.AttributeDescriptor ValueFormat ValueConstraint).
Local Abbreviation RulesConfigAsset := (Resolver.RulesConfigAsset ValueFormat ValueConstraint).

Implicit Types (h : Heap) (d : Descriptors) (c : RulesConfig) (catalog : AssetModelUtil)
  (ad : AssetDescriptor) (section : option Section_).

(** *** The query accessors *)

(** X1. The type of a query is the first of its types, when that is a
    non-empty name; it is never the empty string, and there is none for an
    empty types array.  The ids of a query are its [ids] array, whatever it
    holds, whenever the query has one, and there are none otherwise. *)
Theorem query_accessors (query : option AssetQuery) :
  (∀ t, getAssetTypeFromQuery query = Some t
        ↔ ∃ q rest, query = Some q ∧ types q = Some (t :: rest) ∧ t ≠ "")
  ∧ getAssetTypeFromQuery query ≠ Some ""
  ∧ (∀ q, query = Some q → types q = Some [] → getAssetTypeFromQuery query = None)
  ∧ (∀ l, getAssetIdsFromQuery query = Some l ↔ ∃ q, query = Some q ∧ ids q = Some l)
  ∧ (getAssetIdsFromQuery query = None
     ↔ query = None ∨ ∃ q, query = Some q ∧ ids q = None).
Proof.
  assert (Hiff : ∀ t, getAssetTypeFromQuery query = Some t
                 ↔ ∃ q rest, query = Some q ∧ types q = Some (t :: rest) ∧ t ≠ "").
  { intros t. unfold getAssetTypeFromQuery. split.
    - destruct query as [q|]; [|done]. destruct (types q) as [[|t0 rest]|] eqn:Hts; try done.
      cbn. destruct (String.eqb t0 "") eqn:Ht0; cbn; [done|].
      intros [= ->]. exists q, rest. split_and!; [done|done|].
      intros ->. by rewrite String.eqb_refl in Ht0.
    - intros (q & rest & -> & -> & Hne). cbn.
      destruct (String.eqb_spec t ""); [done|]. done. }
  split_and!; [done| | | |].
  - intros Hempty. apply Hiff in Hempty as (_ & _ & _ & _ & Hne). done.
  - intros q -> Hts. unfold getAssetTypeFromQuery. by rewrite Hts.
  - intros l. unfold getAssetIdsFromQuery. split.
    + destruct query as [q|]; [|done]. destruct (ids q) as [l'|] eqn:Hids; [|done].
      intros [= ->]. by exists q.
    + intros (q & -> & ->). done.
  - unfold getAssetIdsFromQuery. split.
    + destruct query as [q|]; [|by left]. destruct (ids q) as [l'|] eqn:Hids; [done|].
      intros _. right. by exists q.
    + intros [->|(q & -> & ->)]; done.
Qed.

(** *** The default list *)

(** X2. [getAssetTypes] lists the names of the registered type infos, in their
    order, all but the unknown asset type, and writes nothing. *)
Theorem unknown_asset_not_listed catalog h :
  registered h catalog →
  ∃ names,
    getAssetTypes UNKNOWNASSET catalog h = Returns (names, h)
    ∧ (Some UNKNOWNASSET ∉ names)
    ∧ (names `sublist_of` (registeredName h <$> getAssetTypeInfos catalog))
    ∧ ∀ r, r ∈ getAssetTypeInfos catalog →
           registeredName h r ≠ Some UNKNOWNASSET →
           registeredName h r ∈ names.
Proof.
  intros Hreg. eexists. split; [by apply getAssetTypes_names|].
  split_and!.
  - rewrite list_elem_of_In, List.filter_In, bool_decide_eq_true. intros [_ Hne]. done.
  - apply filter_sublist.
  - intros r Hr Hne. rewrite list_elem_of_In, List.filter_In, bool_decide_eq_true.
    split; [|done]. apply list_elem_of_In. by apply list_elem_of_fmap_2.
Qed.

(** X3. A registered type info without its descriptor makes [getAssetTypes]
    throw, and with it the resolver, whatever the config: also with none. *)
Theorem missing_descriptor_rejects catalog h (r : Ref) (ti : AssetTypeInfo)
    (config : option RulesConfig) (useActionConfig : bool) :
  Forall (λ r, is_Some (infos h !! r)) (getAssetTypeInfos catalog) →
  r ∈ getAssetTypeInfos catalog →
  infos h !! r = Some ti →
  assetDescriptor ti = None →
  getAssetTypes UNKNOWNASSET catalog h = Throws TypeError
  ∧ getAssetInfos stringMatch UNKNOWNASSET catalog config useActionConfig h
    = Throws TypeError.
Proof.
  intros Hvalid Hr Hti Hnone.
  assert (Htypes : getAssetTypes UNKNOWNASSET catalog h = Throws TypeError).
  { unfold getAssetTypes.
    set (info := λ r : Ref, default (Build_AssetTypeInfo None None None None) (infos h !! r)).
    assert (Hread : mapM readInfo (getAssetTypeInfos catalog) h
                    = Returns (info <$> getAssetTypeInfos catalog, h)).
    { apply mapM_reads. eapply Forall_impl; [exact Hvalid|].
      intros r' [ti' Hr']. unfold readInfo, info. by rewrite Hr'. }
    rewrite (bind_returns _ _ _ _ _ Hread).
    unfold mbind at 1, Eff_bind. erewrite filterM_throws; [done| |].
    - apply Forall_forall. intros ti' _. unfold descriptorName, deref.
      destruct (assetDescriptor ti') as [ad'|]; [left|right; done].
      eexists. reflexivity.
    - apply Exists_exists. exists (info r). split.
      + by apply list_elem_of_fmap_2.
      + unfold info. rewrite Hti. cbn. unfold descriptorName. by rewrite Hnone. }
  split; [done|]. unfold getAssetInfos, mbind, Eff_bind. by rewrite Htypes.
Qed.

(** *** Sections *)

(** X4. Resolving for one side never reads the other side's section. *)
Theorem other_side_not_read catalog (all_ when_ when' action_ action' : option Section_) h :
  getAssetInfos stringMatch UNKNOWNASSET catalog
    (Some {| descriptors := Some {| all := all_; when := when_; action := action_ |} |})
    false h
  = getAssetInfos stringMatch UNKNOWNASSET catalog
      (Some {| descriptors := Some {| all := all_; when := when_; action := action' |} |})
      false h
  ∧ getAssetInfos stringMatch UNKNOWNASSET catalog
      (Some {| descriptors := Some {| all := all_; when := when_; action := action_ |} |})
      true h
    = getAssetInfos stringMatch UNKNOWNASSET catalog
        (Some {| descriptors := Some {| all := all_; when := when'; action := action_ |} |})
        true h.
Proof. split; reflexivity. Qed.

(** X5. A ["*"] entry in the side section hides every asset entry of the [all]
    section, the one for the very type included. *)
Theorem side_wildcard_hides_all d (useActionConfig : bool) (assetType : string)
    (dict : gmap string RulesConfigAsset) (star : RulesConfigAsset) :
  let section := if useActionConfig then action d else when d in
  section ≫= assets = Some dict →
  dict !! "*" = Some star →
  getAssetDescriptorFromSection assetType (Some {| descriptors := Some d |}) useActionConfig
  = Some (default star (dict !! assetType)).
Proof.
  intros section Hdict Hstar. unfold getAssetDescriptorFromSection. cbn. fold section.
  rewrite Hdict. destruct (dict !! assetType); cbn; [done|]. by rewrite Hstar.
Qed.

(** *** Filtering only *)

(** X6. With no [assets] dictionary in the side section nor in the [all]
    section, the resolver returns the catalog's own type infos for the
    descriptors that pass the lists, and writes nothing. *)
Theorem lists_only_share_catalog catalog c d (useActionConfig : bool) h :
  let section := if useActionConfig then action d else when d in
  descriptors c = Some d →
  section ≫= assets = None →
  all d ≫= assets = None →
  registered h catalog →
  ∃ available,
    getAssetTypes UNKNOWNASSET catalog h = Returns (available, h)
    ∧ getAssetInfos stringMatch UNKNOWNASSET catalog (Some c) useActionConfig h
      = Returns (getAssetTypeInfo catalog
                   <$> filter (λ ad, isIncluded (allowedAssetTypes d section available)
                                                (excludedAssetTypes d section) ad)
                              (getAssetDescriptors catalog),
                 h).
Proof.
  intros section Hd Hside Hall Hreg.
  destruct (getAssetTypes_returns UNKNOWNASSET catalog h Hreg) as [available Havailable].
  exists available. split; [done|].
  unfold getAssetInfos. rewrite (bind_returns _ _ _ _ _ Havailable), Hd. fold section.
  apply mapM_reads. apply Forall_forall. intros ad _.
  unfold amalgamate, getAssetDescriptorFromSection. cbn. rewrite Hd. cbn.
  fold section. by rewrite Hside, Hall.
Qed.

(** X7. An empty [includeAssets] in the [all] section lifts every restriction
    by name, the side section's own list included: what is not excluded
    passes. *)
Theorem empty_allow_list_allows_all d section (available excluded : list (option string)) :
  all d ≫= includeAssets = Some [] →
  allowedAssetTypes d section available = []
  ∧ ∀ ad, isIncluded (allowedAssetTypes d section available) excluded ad
          ↔ ad_name ad ∉ excluded.
Proof.
  intros Hall.
  assert (Hallowed : allowedAssetTypes d section available = []).
  { unfold allowedAssetTypes. rewrite Hall. cbn. by rewrite orb_true_r. }
  split; [done|]. intros ad. rewrite Hallowed, (isIncluded_spec stringMatch UNKNOWNASSET).
  split; [by intros [_ ?]|]. intros Hex. split; [by left|done].
Qed.

(** X8. With [descriptors] in the config and no [includeAssets] anywhere, the
    allow list is what [getAssetTypes] returns: as soon as one name is
    listed, a descriptor of the unknown asset type does not pass. *)
Theorem unknown_asset_filtered catalog d section h (excluded : list (option string)) :
  registered h catalog →
  section ≫= includeAssets = None →
  all d ≫= includeAssets = None →
  ∃ available,
    getAssetTypes UNKNOWNASSET catalog h = Returns (available, h)
    ∧ ∀ ad, available ≠ [] → ad_name ad = Some UNKNOWNASSET →
            isIncluded (allowedAssetTypes d section available) excluded ad = false.
Proof.
  intros Hreg Hside Hall.
  destruct (unknown_asset_not_listed catalog h Hreg) as (names & Hnames & Hnot & _).
  exists names. split; [done|]. intros ad Hne Hname.
  apply not_true_is_false. intros Hin. apply Is_true_true_2, (isIncluded_spec stringMatch UNKNOWNASSET) in Hin.
  assert (Hallowed : allowedAssetTypes d section names = names).
  { unfold allowedAssetTypes. by rewrite Hside, Hall. }
  rewrite Hallowed, Hname in Hin. destruct Hin as [[?|?] _]; done.
Qed.

(** *** Descriptors the catalog does not know *)

(** X9. For a descriptor whose type info the catalog does not find, the
    callback returns [undefined] when no override applies, and throws when
    one does. *)
Theorem unknown_descriptor catalog c d (useActionConfig : bool) ad h :
  getAssetTypeInfo catalog ad = None →
  (getAssetDescriptorFromSection (propKey (ad_name ad)) (Some c) useActionConfig = None →
   amalgamate stringMatch catalog c d useActionConfig ad h = Returns (None, h))
  ∧ (is_Some (getAssetDescriptorFromSection (propKey (ad_name ad)) (Some c) useActionConfig) →
     amalgamate stringMatch catalog c d useActionConfig ad h = Throws TypeError).
Proof.
  intros Hnone. unfold amalgamate. rewrite Hnone. split.
  - by intros ->.
  - by intros [cd ->].
Qed.

(** *** What a resolution does to the store *)

Lemma grown_refl (a : AttributeDescriptor) : grown a a.
Proof. split; [done|]. intros cs Hcs. by exists cs. Qed.

Lemma grown_trans (a1 a2 a3 : AttributeDescriptor) : grown a1 a2 → grown a2 a3 → grown a1 a3.
Proof.
  intros [Hn12 Hc12] [Hn23 Hc23]. split; [congruence|].
  intros cs Hcs. destruct (Hc12 cs Hcs) as (cs2 & Hcs2 & Hsuf2).
  destruct (Hc23 cs2 Hcs2) as (cs3 & Hcs3 & Hsuf3).
  exists cs3. split; [done|]. by etrans.
Qed.

Lemma overridden_grown own d section (a : AttributeDescriptor) :
  grown a (overridden own d section a).
Proof.
  unfold overridden. destruct (findConfigAttribute own d section (attr_name a)) as [o|];
    [|apply grown_refl].
  split; [done|]. intros cs Hcs. cbn. rewrite Hcs.
  destruct (constraints o) as [cs'|]; eexists; (split; [done|]); [by eexists|done].
Qed.

Lemma evolved_refl h : evolved h h.
Proof. split_and!; [done|done|]. intros r a Ha. exists a. split; [done|apply grown_refl]. Qed.

Lemma evolved_trans h1 h2 h3 : evolved h1 h2 → evolved h2 h3 → evolved h1 h3.
Proof.
  intros (Hp12 & Hl12 & Ha12) (Hp23 & Hl23 & Ha23).
  split_and!; [by etrans|by rewrite Hl23|].
  intros r a Ha. destruct (Ha12 r a Ha) as (a2 & Ha2 & Hg2).
  destruct (Ha23 r a2 Ha2) as (a3 & Ha3 & Hg3).
  exists a3. split; [done|]. by eapply grown_trans.
Qed.

(** The override pass, whatever the array holds twice. *)
Lemma forEach_overrideAttribute_evolved own d section (l : list Ref) h :
  Forall (λ a, is_Some (attrs h !! a)) l →
  ∃ h', forEach (overrideAttribute own d section) l h = Returns ((), h')
        ∧ infos h' = infos h
        ∧ evolved h h'.
Proof.
  revert h. induction l as [|r l IH]; intros h Hl.
  { exists h. split_and!; [done|done|apply evolved_refl]. }
  apply Forall_cons in Hl as [[a0 Hr] Hl].
  pose proof (overrideAttribute_returns own d section r h a0 Hr) as Hstep.
  set (h1 := {| infos := infos h;
                attrs := <[r := overridden own d section a0]> (attrs h) |}) in *.
  assert (Hev1 : evolved h h1).
  { split_and!; [done|by cbn; rewrite length_insert|].
    intros r' a Ha. cbn. destruct (decide (r' = r)) as [->|Hne].
    - exists (overridden own d section a0).
      rewrite list_lookup_insert_eq by (by apply lookup_lt_is_Some).
      split; [done|].
      assert (Heq : Some a = Some a0) by (etrans; [symmetry; exact Ha|exact Hr]).
      injection Heq as ->. apply overridden_grown.
    - exists a. rewrite list_lookup_insert_ne by done. split; [done|apply grown_refl]. }
  destruct (IH h1) as (h' & Hrun & Hinfos & Hev).
  { eapply Forall_impl; [exact Hl|]. intros a. cbn.
    rewrite !lookup_lt_is_Some, length_insert. done. }
  exists h'. rewrite forEach_cons, (bind_returns _ _ _ _ _ Hstep).
  split_and!; [done|by rewrite Hinfos|by eapply evolved_trans].
Qed.

Lemma attributeIncluded_kept (inc exc : option (list string)) (l : list Ref) h :
  Forall (λ a, is_Some (attrs h !! a)) l →
  filterM (attributeIncluded stringMatch inc exc) l h
  = Returns (List.filter (attributeKept stringMatch h inc exc) l, h).
Proof.
  intros Hl. apply filterM_reads. eapply Forall_impl; [exact Hl|].
  intros r [a Ha]. cbn. unfold attributeIncluded, attributeKept, readAttr.
  unfold mbind at 1, Eff_bind. by rewrite Ha.
Qed.

(** The callback on a descriptor with an override, in full: the attribute
    array it keeps, the store it leaves and the entry it returns. *)
Lemma amalgamate_override_exact catalog c d (useActionConfig : bool) ad h
    (cd : RulesConfigAsset) (r : Ref) (ti : AssetTypeInfo) :
  let section := if useActionConfig then action d else when d in
  let l := default [] (attributeDescriptors ti) in
  let l' := if defined (includeAttributes cd) || defined (excludeAttributes cd)
            then List.filter (attributeKept stringMatch h (includeAttributes cd)
                                            (excludeAttributes cd)) l
            else l in
  let base := default {| descriptorType := "asset"; ad_name := None;
                         icon := None; colour := None |} (assetDescriptor ti) in
  getAssetDescriptorFromSection (propKey (ad_name ad)) (Some c) useActionConfig = Some cd →
  getAssetTypeInfo catalog ad = Some r →
  infos h !! r = Some ti →
  Forall (λ a, is_Some (attrs h !! a)) l →
  ∃ h1 ti' (ad' : AssetDescriptor),
    amalgamate stringMatch catalog c d useActionConfig ad h
    = Returns (Some (length (infos h)), {| infos := infos h ++ [ti']; attrs := attrs h1 |})
    ∧ evolved h h1
    ∧ (rca_attributeDescriptors cd = None → h1 = h)
    ∧ attributeDescriptors ti' = Some l'
    ∧ metaItemDescriptors ti' = Some (default [] (metaItemDescriptors ti))
    ∧ valueDescriptors ti' = Some (default [] (valueDescriptors ti))
    ∧ assetDescriptor ti' = Some ad'
    ∧ descriptorType ad' = descriptorType base
    ∧ ad_name ad' = ad_name base
    ∧ icon ad' = (if truthy (rca_icon cd) then rca_icon cd else icon base)
    ∧ colour ad' = (if truthy (color cd) then color cd else colour base).
Proof.
  intros section l l' base Hcd Hr Hti Hvalid. unfold amalgamate. rewrite Hcd, Hr.
  assert (Hread : (r0 ← deref (Some r); readInfo r0) h = Returns (ti, h)).
  { cbn. unfold mbind, Eff_bind, mret, Eff_ret, readInfo. by rewrite Hti. }
  rewrite (bind_returns _ _ _ _ _ Hread). clear Hread. fold l.
  assert (Hfilter : (if defined (includeAttributes cd) || defined (excludeAttributes cd)
                     then filterM (attributeIncluded stringMatch (includeAttributes cd)
                                     (excludeAttributes cd)) l
                     else mret l) h = Returns (l', h)).
  { subst l'. destruct (defined (includeAttributes cd) || defined (excludeAttributes cd));
      [by apply attributeIncluded_kept|done]. }
  rewrite (bind_returns _ _ _ _ _ Hfilter). clear Hfilter.
  assert (Hvalid' : Forall (λ a, is_Some (attrs h !! a)) l').
  { apply Forall_forall. intros a Ha. revert Hvalid. rewrite Forall_forall.
    intros Hvalid. apply Hvalid. subst l'.
    destruct (defined (includeAttributes cd) || defined (excludeAttributes cd)); [|done].
    eapply elem_of_sublist; [exact Ha|apply filter_sublist]. }
  assert (Hbase : (if assetDescriptor ti is Some x then x
                   else {| descriptorType := "asset"; ad_name := None;
                           icon := None; colour := None |}) = base).
  { subst base. by destruct (assetDescriptor ti). }
  rewrite Hbase.
  destruct (rca_attributeDescriptors cd) as [own|] eqn:Hown.
  - destruct (forEach_overrideAttribute_evolved own d section l' h Hvalid')
      as (h1 & Hrun & Hinfos & Hev).
    rewrite (bind_returns _ _ _ _ _ Hrun).
    unfold mbind at 1, Eff_bind, allocInfo. cbn. rewrite Hinfos.
    eexists h1, _, _. split; [reflexivity|].
    split_and!; try done; cbn;
      by destruct (truthy (rca_icon cd)), (truthy (color cd)).
  - unfold mbind, Eff_bind, allocInfo. cbn.
    eexists h, _, _. split; [reflexivity|].
    split_and!; try done; [apply evolved_refl|..]; cbn;
      by destruct (truthy (rca_icon cd)), (truthy (color cd)).
Qed.

Lemma amalgamate_evolved catalog c d (useActionConfig : bool) ad h :
  described h catalog ad →
  ∃ result h',
    amalgamate stringMatch catalog c d useActionConfig ad h = Returns (result, h')
    ∧ evolved h h'
    ∧ (result = getAssetTypeInfo catalog ad
       ∨ ∃ new : Ref, result = Some new ∧ length (infos h) ≤ new).
Proof.
  intros (r & ti & Hr & Hti & Hvalid).
  destruct (getAssetDescriptorFromSection (propKey (ad_name ad)) (Some c) useActionConfig)
    as [cd|] eqn:Hcd.
  - destruct (amalgamate_override_exact catalog c d useActionConfig ad h cd r ti
                Hcd Hr Hti Hvalid) as (h1 & ti' & ad' & Hrun & Hev & _).
    eexists _, _. split; [exact Hrun|]. split; [|right; by eexists].
    destruct Hev as (Hpre & Hlen & Hattrs).
    split_and!; cbn; [by apply prefix_app_r|done|done].
  - exists (getAssetTypeInfo catalog ad), h. unfold amalgamate. rewrite Hcd.
    split_and!; [done|apply evolved_refl|by left].
Qed.

Lemma getAssetInfos_evolved catalog (config : option RulesConfig) (useActionConfig : bool) h :
  registered h catalog →
  Forall (described h catalog) (getAssetDescriptors catalog) →
  ∃ results h',
    getAssetInfos stringMatch UNKNOWNASSET catalog config useActionConfig h
    = Returns (results, h')
    ∧ evolved h h'
    ∧ Forall (λ result,
                (∃ ad, ad ∈ getAssetDescriptors catalog
                       ∧ result = getAssetTypeInfo catalog ad)
                ∨ ∃ new : Ref, result = Some new ∧ infos h !! new = None)
             results.
Proof.
  intros Hreg Hdesc.
  destruct (getAssetTypes_returns UNKNOWNASSET catalog h Hreg) as [available Havailable].
  unfold getAssetInfos. rewrite (bind_returns _ _ _ _ _ Havailable).
  assert (Hshared : ∃ results h',
            mret (M := Eff Heap) (getAssetTypeInfo catalog <$> getAssetDescriptors catalog) h
            = Returns (results, h')
            ∧ evolved h h'
            ∧ Forall (λ result,
                        (∃ ad, ad ∈ getAssetDescriptors catalog
                               ∧ result = getAssetTypeInfo catalog ad)
                        ∨ ∃ new : Ref, result = Some new ∧ infos h !! new = None)
                     results).
  { eexists _, h. split_and!; [done|apply evolved_refl|].
    apply Forall_fmap, Forall_forall. intros ad Had. left. by exists ad. }
  destruct config as [c|]; [|exact Hshared].
  destruct (descriptors c) as [d|]; [|exact Hshared]. clear Hshared.
  set (survivors := filter _ _).
  assert (Hsub : survivors `sublist_of` getAssetDescriptors catalog) by apply sublist_filter.
  destruct (mapM_invariant (amalgamate stringMatch catalog c d useActionConfig)
              (λ h1, evolved h h1 ∧ Forall (described h1 catalog) (getAssetDescriptors catalog))
              (λ ad result, ad ∈ getAssetDescriptors catalog
                            ∧ (result = getAssetTypeInfo catalog ad
                               ∨ ∃ new : Ref, result = Some new ∧ length (infos h) ≤ new))
              survivors h) as (results & h' & Hrun & [Hev _] & Hall).
  { split; [apply evolved_refl|done]. }
  { intros ad h1 Hin [Hev Hinv].
    assert (Hcat : ad ∈ getAssetDescriptors catalog) by (by eapply elem_of_sublist).
    assert (Had : described h1 catalog ad).
    { revert Hinv. rewrite Forall_forall. intros Hinv. by apply Hinv. }
    destruct (amalgamate_evolved catalog c d useActionConfig ad h1 Had)
      as (result & h2 & Hres & Hev2 & Hresult).
    exists result, h2. split; [done|]. split; [split|].
    - by eapply evolved_trans.
    - destruct Hev2 as (Hpre & Hlen & _).
      eapply Forall_impl; [exact Hinv|]. intros ad' Had'. by eapply described_preserved.
    - split; [done|]. destruct Hresult as [->|(new & -> & Hnew)]; [by left|right].
      exists new. split; [done|]. destruct Hev as (Hpre & _).
      apply prefix_length in Hpre. lia. }
  exists results, h'. split_and!; [done|done|].
  clear Hrun Hsub. clearbody survivors.
  induction Hall as [|ad result survivors' results' [Hcat Hresult] _ IH];
    [constructor|]. constructor; [|done].
  destruct Hresult as [->|(new & -> & Hnew)]; [left; by exists ad|right].
  exists new. split; [done|]. by apply lookup_ge_None.
Qed.

(** X10. A resolution never writes to a type info the store already has, the
    catalog's own included, and never adds or removes an attribute
    descriptor object; each entry it returns is the catalog's type info of
    a descriptor or an object that was not in the store. *)
Theorem resolution_keeps_type_infos catalog (config : option RulesConfig)
    (useActionConfig : bool) h :
  registered h catalog →
  Forall (described h catalog) (getAssetDescriptors catalog) →
  ∃ results h',
    getAssetInfos stringMatch UNKNOWNASSET catalog config useActionConfig h
    = Returns (results, h')
    ∧ (∀ (r : Ref) (ti : AssetTypeInfo), infos h !! r = Some ti → infos h' !! r = Some ti)
    ∧ length (attrs h') = length (attrs h)
    ∧ Forall (λ result,
                (∃ ad, ad ∈ getAssetDescriptors catalog
                       ∧ result = getAssetTypeInfo catalog ad)
                ∨ ∃ new : Ref, result = Some new ∧ infos h !! new = None)
             results.
Proof.
  intros Hreg Hdesc.
  destruct (getAssetInfos_evolved catalog config useActionConfig h Hreg Hdesc)
    as (results & h' & Hrun & (Hpre & Hlen & _) & Hresults).
  exists results, h'. split_and!; [done| |done|done].
  intros r ti Hti. by eapply prefix_lookup_Some.
Qed.

(** X11. Across a resolution every attribute descriptor object keeps its name,
    and the constraints it had are still the end of the constraints it has:
    overrides add in front and nothing is ever taken away, however often an
    object is visited. *)
Theorem resolution_grows_constraints catalog (config : option RulesConfig)
    (useActionConfig : bool) h :
  registered h catalog →
  Forall (described h catalog) (getAssetDescriptors catalog) →
  ∃ results h',
    getAssetInfos stringMatch UNKNOWNASSET catalog config useActionConfig h
    = Returns (results, h')
    ∧ ∀ (r : Ref) (a : AttributeDescriptor),
        attrs h !! r = Some a →
        ∃ a', attrs h' !! r = Some a'
              ∧ attr_name a' = attr_name a
              ∧ ∀ cs, constraints a = Some cs →
                      ∃ cs', constraints a' = Some cs' ∧ cs `suffix_of` cs'.
Proof.
  intros Hreg Hdesc.
  destruct (getAssetInfos_evolved catalog config useActionConfig h Hreg Hdesc)
    as (results & h' & Hrun & (_ & _ & Hattrs) & _).
  exists results, h'. split; [done|]. intros r a Ha.
  destruct (Hattrs r a Ha) as (a' & Ha' & Hname & Hcs). by exists a'.
Qed.

(** *** The entry built for an override *)

(** X12. The entry returned for a descriptor with an override is a new object;
    its descriptor has the name and descriptor type of the catalog's, the
    override's icon and colour where the override has non-empty ones and
    the catalog's otherwise; its three arrays are always there. *)
Theorem override_entry_shape catalog c d (useActionConfig : bool) ad h
    (cd : RulesConfigAsset) (r : Ref) (ti : AssetTypeInfo) (base : AssetDescriptor) :
  getAssetDescriptorFromSection (propKey (ad_name ad)) (Some c) useActionConfig = Some cd →
  getAssetTypeInfo catalog ad = Some r →
  infos h !! r = Some ti →
  assetDescriptor ti = Some base →
  Forall (λ a, is_Some (attrs h !! a)) (default [] (attributeDescriptors ti)) →
  ∃ (new : Ref) h' ti' ad',
    amalgamate stringMatch catalog c d useActionConfig ad h = Returns (Some new, h')
    ∧ infos h !! new = None
    ∧ infos h' !! new = Some ti'
    ∧ infos h' !! r = Some ti
    ∧ assetDescriptor ti' = Some ad'
    ∧ ad_name ad' = ad_name base
    ∧ descriptorType ad' = descriptorType base
    ∧ icon ad' = (if truthy (rca_icon cd) then rca_icon cd else icon base)
    ∧ colour ad' = (if truthy (color cd) then color cd else colour base)
    ∧ is_Some (attributeDescriptors ti')
    ∧ metaItemDescriptors ti' = Some (default [] (metaItemDescriptors ti))
    ∧ valueDescriptors ti' = Some (default [] (valueDescriptors ti)).
Proof.
  intros Hcd Hr Hti Hbase Hvalid.
  destruct (amalgamate_override_exact catalog c d useActionConfig ad h cd r ti
              Hcd Hr Hti Hvalid)
    as (h1 & ti' & ad' & Hrun & _ & _ & Hl' & Hmeta & Hvalue & Had' & Htype & Hname
        & Hicon & Hcolour).
  rewrite Hbase in Htype, Hname, Hicon, Hcolour. cbn in Htype, Hname, Hicon, Hcolour.
  eexists _, _, ti', ad'. split; [exact Hrun|]. cbn.
  split_and!; try done.
  - by apply lookup_ge_None.
  - by apply list_lookup_middle.
  - by apply lookup_app_l_Some.
Qed.

(** X13. The attribute array of that entry is the catalog's, in order, without
    the attributes whose name matches no include pattern (when includes are
    given) or matches an exclude pattern (when excludes are given).  An
    empty include list leaves no attribute; without either list the array
    is the catalog's. *)
Theorem override_entry_attributes catalog c d (useActionConfig : bool) ad h
    (cd : RulesConfigAsset) (r : Ref) (ti : AssetTypeInfo) (l : list Ref) :
  getAssetDescriptorFromSection (propKey (ad_name ad)) (Some c) useActionConfig = Some cd →
  getAssetTypeInfo catalog ad = Some r →
  infos h !! r = Some ti →
  attributeDescriptors ti = Some l →
  Forall (λ a, is_Some (attrs h !! a)) l →
  ∃ h' ti' l',
    amalgamate stringMatch catalog c d useActionConfig ad h
    = Returns (Some (length (infos h)), h')
    ∧ infos h' !! length (infos h) = Some ti'
    ∧ attributeDescriptors ti' = Some l'
    ∧ l' `sublist_of` l
    ∧ (∀ (a : Ref) (native : AttributeDescriptor),
         a ∈ l → attrs h !! a = Some native →
         (a ∈ l'
          ↔ (∀ inc, includeAttributes cd = Some inc →
                    ∃ i, i ∈ inc ∧ stringMatch i (attr_name native))
            ∧ (∀ exc, excludeAttributes cd = Some exc →
                      ∀ e, e ∈ exc → ¬ stringMatch e (attr_name native))))
    ∧ (includeAttributes cd = Some [] → l' = [])
    ∧ (includeAttributes cd = None → excludeAttributes cd = None → l' = l).
Proof.
  intros Hcd Hr Hti Hl Hvalid.
  destruct (amalgamate_override_exact catalog c d useActionConfig ad h cd r ti
              Hcd Hr Hti) as (h1 & ti' & ad' & Hrun & _ & _ & Hl' & _).
  { by rewrite Hl. }
  rewrite Hl in Hl'. cbn [default] in Hl'.
  eexists _, ti', _. split; [exact Hrun|]. cbn [infos].
  split; [by apply list_lookup_middle|]. split; [exact Hl'|].
  assert (Hkept : ∀ (a : Ref) (native : AttributeDescriptor),
            attrs h !! a = Some native →
            attributeKept stringMatch h (includeAttributes cd) (excludeAttributes cd) a
            ↔ (∀ inc, includeAttributes cd = Some inc →
                      ∃ i, i ∈ inc ∧ stringMatch i (attr_name native))
              ∧ (∀ exc, excludeAttributes cd = Some exc →
                        ∀ e, e ∈ exc → ¬ stringMatch e (attr_name native))).
  { intros a native Ha. unfold attributeKept. rewrite Ha. cbn.
    rewrite andb_True.
    assert (Hsome : ∀ (pats : list string),
              existsb (λ i, stringMatch i (attr_name native)) pats
              ↔ ∃ i, i ∈ pats ∧ stringMatch i (attr_name native)).
    { intros pats. rewrite Is_true_true, existsb_exists. split.
      - intros (i & Hi & Hm). exists i.
        split; [by apply list_elem_of_In|by apply Is_true_true_2].
      - intros (i & Hi & Hm). exists i.
        split; [by apply list_elem_of_In|by apply Is_true_true_1]. }
    destruct (includeAttributes cd) as [inc|], (excludeAttributes cd) as [exc|];
      rewrite ?negb_True, ?Hsome.
    - split.
      + intros [Hi He]. split; [by intros ? [= <-]|].
        intros ? [= <-] e Hin Hm. apply He. by exists e.
      + intros [Hi He]. split; [by apply Hi|].
        intros (e & Hin & Hm). by apply (He exc eq_refl e).
    - split.
      + intros [Hi _]. split; [by intros ? [= <-]|done].
      + intros [Hi _]. split; [by apply Hi|done].
    - split.
      + intros [_ He]. split; [done|].
        intros ? [= <-] e Hin Hm. apply He. by exists e.
      + intros [_ He]. split; [done|].
        intros (e & Hin & Hm). by apply (He exc eq_refl e).
    - split; [|done]. intros _. split; done. }
  split_and!.
  - destruct (defined (includeAttributes cd) || defined (excludeAttributes cd));
      [apply filter_sublist|done].
  - intros a native Ha Hnative. rewrite <- (Hkept a native Hnative).
    destruct (defined (includeAttributes cd) || defined (excludeAttributes cd)) eqn:Hdef.
    + rewrite list_elem_of_In, List.filter_In, <- list_elem_of_In, Is_true_true. tauto.
    + by destruct (includeAttributes cd), (excludeAttributes cd).
  - intros Hinc. rewrite Hinc. cbn. clear. by induction l as [|a l IH].
  - intros Hinc Hexc. by rewrite Hinc, Hexc.
Qed.

(** *** Where the writes come from *)

(** X14. When no asset entry the lookup can return has an attribute dictionary
    of its own, a resolution leaves every attribute descriptor object as it
    was. *)
Theorem no_dictionary_no_write catalog c d (useActionConfig : bool) h :
  descriptors c = Some d →
  (∀ assetType (cd : RulesConfigAsset),
     getAssetDescriptorFromSection assetType (Some c) useActionConfig = Some cd →
     rca_attributeDescriptors cd = None) →
  registered h catalog →
  Forall (described h catalog) (getAssetDescriptors catalog) →
  ∃ results h',
    getAssetInfos stringMatch UNKNOWNASSET catalog (Some c) useActionConfig h
    = Returns (results, h')
    ∧ attrs h' = attrs h.
Proof.
  intros Hd Hplain Hreg Hdesc.
  destruct (getAssetTypes_returns UNKNOWNASSET catalog h Hreg) as [available Havailable].
  unfold getAssetInfos. rewrite (bind_returns _ _ _ _ _ Havailable), Hd.
  set (survivors := filter _ _).
  assert (Hsub : survivors `sublist_of` getAssetDescriptors catalog) by apply sublist_filter.
  destruct (mapM_invariant (amalgamate stringMatch catalog c d useActionConfig)
              (λ h1, attrs h1 = attrs h
                     ∧ Forall (described h1 catalog) (getAssetDescriptors catalog))
              (λ _ _, True) survivors h) as (results & h' & Hrun & [Hattrs _] & _).
  { done. }
  { intros ad h1 Hin [Hattrs Hinv].
    assert (Had : described h1 catalog ad).
    { revert Hinv. rewrite Forall_forall. intros Hinv. apply Hinv.
      by eapply elem_of_sublist. }
    destruct (getAssetDescriptorFromSection (propKey (ad_name ad)) (Some c) useActionConfig)
      as [cd|] eqn:Hcd.
    - destruct Had as (r & ti & Hr & Hti & Hvalid).
      destruct (amalgamate_override_exact catalog c d useActionConfig ad h1 cd r ti
                  Hcd Hr Hti Hvalid) as (h2 & ti' & ad' & Hres & _ & Hsame & _).
      rewrite (Hsame (Hplain _ _ Hcd)) in Hres.
      eexists _, _. split; [exact Hres|]. cbn. split; [split; [done|]|done].
      eapply Forall_impl; [exact Hinv|]. intros ad'' Had''.
      eapply described_preserved; [exact Had''|by apply prefix_app_r|done].
    - exists (getAssetTypeInfo catalog ad), h1. unfold amalgamate. rewrite Hcd. done. }
  by exists results, h'.
Qed.

End Properties.

(** *** On the samples *)

Import Samples.

Lemma unknown_asset_not_listed_witness :
  getAssetTypes UNKNOWNASSET catalog store = Returns ([Some "ThermostatAsset"], store).
Proof.
  destruct (unknown_asset_not_listed UNKNOWNASSET catalog store store_registered)
    as (names & Hnames & _).
  rewrite Hnames. vm_compute in Hnames. by injection Hnames as <-.
Defined.

Lemma missing_descriptor_rejects_witness :
  getAssetTypes UNKNOWNASSET orphanCatalog orphanStore = Throws TypeError
  ∧ getAssetInfos exactMatch UNKNOWNASSET orphanCatalog None false orphanStore
    = Throws TypeError.
Proof.
  apply (missing_descriptor_rejects exactMatch UNKNOWNASSET orphanCatalog orphanStore
           1 orphanInfo None false).
  - repeat constructor; by eexists.
  - right. left.
  - reflexivity.
  - reflexivity.
Defined.

Lemma side_wildcard_hides_all_witness :
  getAssetDescriptorFromSection "ThermostatAsset" (Some {| descriptors := Some sideStar |}) false
  = Some plainAsset.
Proof.
  exact (side_wildcard_hides_all sideStar false "ThermostatAsset"
           {[ "*" := plainAsset ]} plainAsset eq_refl eq_refl).
Defined.

Lemma lists_only_share_catalog_witness :
  ∃ available,
    getAssetTypes UNKNOWNASSET catalog store = Returns (available, store)
    ∧ getAssetInfos exactMatch UNKNOWNASSET catalog
                    (Some {| descriptors := Some unrestricted |}) false store
      = Returns (getAssetTypeInfo catalog
                   <$> filter (λ ad, isIncluded
                                       (allowedAssetTypes unrestricted (when unrestricted)
                                                          available)
                                       (excludedAssetTypes unrestricted (when unrestricted))
                                       ad)
                              (getAssetDescriptors catalog),
                 store).
Proof.
  exact (lists_only_share_catalog exactMatch UNKNOWNASSET catalog
           {| descriptors := Some unrestricted |} unrestricted false store
           eq_refl eq_refl eq_refl store_registered).
Defined.

Lemma empty_allow_list_allows_all_witness :
  allowedAssetTypes unrestricted (when unrestricted) [Some "ThermostatAsset"] = []
  ∧ ∀ ad, isIncluded (allowedAssetTypes unrestricted (when unrestricted)
                                        [Some "ThermostatAsset"]) [] ad
          ↔ ad_name ad ∉ [].
Proof.
  exact (empty_allow_list_allows_all exactMatch UNKNOWNASSET unrestricted (when unrestricted)
           [Some "ThermostatAsset"] [] eq_refl).
Defined.

Lemma unknown_asset_filtered_witness :
  ∃ available,
    getAssetTypes UNKNOWNASSET catalog store = Returns (available, store)
    ∧ ∀ ad, available ≠ [] → ad_name ad = Some UNKNOWNASSET →
            isIncluded (allowedAssetTypes overriding (when overriding) available) [] ad
            = false.
Proof.
  exact (unknown_asset_filtered exactMatch UNKNOWNASSET catalog overriding (when overriding)
           store [] store_registered eq_refl eq_refl).
Defined.

Lemma unknown_descriptor_witness :
  (getAssetDescriptorFromSection (propKey (ad_name stranger)) (Some config) false = None →
   amalgamate exactMatch catalog config overriding false stranger store
   = Returns (None, store))
  ∧ (is_Some (getAssetDescriptorFromSection (propKey (ad_name stranger)) (Some config) false) →
     amalgamate exactMatch catalog config overriding false stranger store
     = Throws TypeError).
Proof.
  exact (unknown_descriptor exactMatch catalog config overriding false stranger store eq_refl).
Defined.

Example stranger_with_override :
  amalgamate exactMatch catalog config overriding false stranger store = Throws TypeError.
Proof. vm_compute. reflexivity. Qed.

Lemma resolution_keeps_type_infos_witness :
  ∃ results h',
    getAssetInfos exactMatch UNKNOWNASSET catalog (Some config) false store
    = Returns (results, h')
    ∧ infos h' !! 0 = Some thermostatInfo
    ∧ length (attrs h') = 1.
Proof.
  destruct (resolution_keeps_type_infos exactMatch UNKNOWNASSET catalog (Some config) false
              store store_registered store_described)
    as (results & h' & Hrun & Hinfos & Hlen & _).
  exists results, h'. split_and!; [done|by apply Hinfos|done].
Defined.

Lemma resolution_grows_constraints_witness :
  ∃ results h' a',
    getAssetInfos exactMatch UNKNOWNASSET catalog (Some config) false store
    = Returns (results, h')
    ∧ attrs h' !! 0 = Some a'
    ∧ attr_name a' = Some "temperature"
    ∧ ∃ cs', constraints a' = Some cs' ∧ ["c1"] `suffix_of` cs'.
Proof.
  destruct (resolution_grows_constraints exactMatch UNKNOWNASSET catalog (Some config) false
              store store_registered store_described)
    as (results & h' & Hrun & Hattrs).
  destruct (Hattrs 0 temperature eq_refl) as (a' & Ha' & Hname & Hcs).
  exists results, h', a'. split_and!; [done|done|done|by apply Hcs].
Defined.

Lemma override_entry_shape_witness :
  ∃ (new : Ref) h' ti' ad',
    amalgamate exactMatch catalog {| descriptors := Some restyling |} restyling false
               thermostat store
    = Returns (Some new, h')
    ∧ infos h' !! new = Some ti'
    ∧ assetDescriptor ti' = Some ad'
    ∧ ad_name ad' = Some "ThermostatAsset"
    ∧ icon ad' = Some "gauge"
    ∧ colour ad' = None.
Proof.
  destruct (override_entry_shape exactMatch catalog {| descriptors := Some restyling |}
              restyling false thermostat store restyled 0 thermostatInfo thermostat)
    as (new & h' & ti' & ad' & Hrun & _ & Hnew & _ & Had' & Hname & _ & Hicon & Hcolour & _).
  - vm_compute. reflexivity.
  - reflexivity.
  - reflexivity.
  - reflexivity.
  - repeat constructor. by exists temperature.
  - by exists new, h', ti', ad'.
Defined.

Lemma override_entry_attributes_witness :
  ∃ h' ti',
    amalgamate exactMatch catalog {| descriptors := Some restyling |} restyling false
               thermostat store
    = Returns (Some 1, h')
    ∧ infos h' !! 1 = Some ti'
    ∧ attributeDescriptors ti' = Some [].
Proof.
  destruct (override_entry_attributes exactMatch catalog {| descriptors := Some restyling |}
              restyling false thermostat store restyled 0 thermostatInfo [0])
    as (h' & ti' & l' & Hrun & Hnew & Hl' & Hsub & Hin & _).
  - vm_compute. reflexivity.
  - reflexivity.
  - reflexivity.
  - reflexivity.
  - repeat constructor. by exists temperature.
  - exists h', ti'. split_and!; [done|done|]. rewrite Hl'. f_equal.
    destruct l' as [|a l']; [done|]. exfalso.
    assert (Ha : a ∈ [0]) by (eapply elem_of_sublist; [left|exact Hsub]).
    apply list_elem_of_singleton in Ha as ->.
    destruct (Hin 0 temperature) as [Hkept _]; [by left|done|].
    destruct Hkept as [Hinc _]; [left|].
    destruct (Hinc ["humidity"] eq_refl) as (i & Hi & Hm).
    apply list_elem_of_singleton in Hi as ->. done.
Defined.

Lemma no_dictionary_no_write_witness :
  ∃ results h',
    getAssetInfos exactMatch UNKNOWNASSET catalog (Some {| descriptors := Some restyling |})
                  false store
    = Returns (results, h')
    ∧ attrs h' = [temperature].
Proof.
  apply (no_dictionary_no_write exactMatch UNKNOWNASSET catalog
           {| descriptors := Some restyling |} restyling false store eq_refl).
  - intros assetType cd. unfold getAssetDescriptorFromSection. cbn.
    destruct (decide (assetType = "ThermostatAsset")) as [->|Hne].
    + by intros [= <-].
    + rewrite lookup_singleton_ne by done. cbn. done.
  - exact store_registered.
  - exact store_described.
Defined.

End ResolverMore.

(** ** More on the selection guard *)

Module GuardMore.

Import Events Guard EffFacts GuardSpec.

Section Properties.
Context {RulesetFields : Type} `{EqDecision RulesetFields}.

Local Abbreviation OrRules := (Guard.OrRules RulesetFields).
Local Abbreviation Ruleset := (Guard.Ruleset RulesetFields).

Implicit Types (this later : OrRules).

(** X15. A request event as constructed comes back from the handler with
    [allow] the negation of the viewer's modified flag and its nodes as
    they were; a dialog is left open exactly when the viewer is modified;
    the handler itself does not change the component. *)
Theorem request_allowed_unless_modified this (request : NodeSelectEventDetail) :
  ∃ event pending,
    _onRuleSelectionRequested (OrRulesRequestSelectionEvent request) this
    = Returns ((event, pending), this)
    ∧ allow (event_detail event) = negb (modified (_viewer this))
    ∧ detail (event_detail event) = request
    ∧ (pending = Settled ↔ modified (_viewer this) = false).
Proof.
  destruct (modified (_viewer this)) eqn:Hm.
  - eexists _, _. split; [by apply modified_request_vetoed|]. by split_and!.
  - eexists _, _. split; [by apply unmodified_request_passes|]. by split_and!.
Qed.

(** X16. [_confirmContinue] runs the action at once when the viewer is not
    modified, with the action's outcome as its own.  When the viewer is
    modified it runs nothing and opens a dialog, whose promise runs the
    action on ok and nothing on cancel. *)
Theorem confirm_continue_defers (action : Eff OrRules unit) this :
  (modified (_viewer this) = false →
   _confirmContinue action this
   = match action this with
     | Returns (_, after) => Returns (Settled, after)
     | Throws e => Throws e
     end)
  ∧ (modified (_viewer this) = true →
     ∃ pending,
       _confirmContinue action this = Returns (pending, this)
       ∧ ∀ later, resolveDialog pending true later = action later
                  ∧ resolveDialog pending false later = Returns ((), later)).
Proof.
  unfold _confirmContinue, mbind, Eff_bind, get. split; intros Hm; rewrite Hm.
  - by destruct (action this) as [[[] after]|e].
  - eexists. split; [done|]. by intros later.
Qed.

(** X17. [_onRuleSelectionChanged] returns on nodes whose rulesets are in the
    store, none included: [selectedIds] becomes their ids; with exactly one
    node the viewer gets a new object with the contents of the node's
    ruleset, never the node's own object; otherwise the viewer gets none
    and the store stays as it was. *)
Theorem selection_changed this (nodes : NodeSelectEventDetail) (xs : list Ruleset) :
  Forall2 (λ node x, heap this !! ruleset node = Some x) (newNodes nodes) xs →
  ∃ after,
    _onRuleSelectionChanged (OrRulesSelectionEvent nodes) this = Returns ((), after)
    ∧ selectedIds after = Some (id <$> xs)
    ∧ modified (_viewer after) = modified (_viewer this)
    ∧ match newNodes nodes, xs with
      | [node], [x] =>
        heap after = heap this ++ [x]
        ∧ viewer_ruleset (_viewer after) = Some (length (heap this))
        ∧ viewer_ruleset (_viewer after) ≠ Some (ruleset node)
      | _, _ =>
        heap after = heap this ∧ viewer_ruleset (_viewer after) = None
      end.
Proof.
  intros Hxs. unfold _onRuleSelectionChanged. cbn [OrRulesSelectionEvent event_detail].
  rewrite (bind_returns _ _ _ _ _ (read_ids this (newNodes nodes) xs Hxs)).
  unfold setSelectedIds at 1, mbind at 1, Eff_bind.
  destruct Hxs as [|node x nodes' xs' Hx Hrest].
  { eexists. split; [reflexivity|]. by split_and!. }
  destruct Hrest as [|node' x' nodes'' xs'' Hx' Hrest].
  - cbn. unfold copyRuleset, readRuleset, allocRuleset, setViewerRuleset, mbind, Eff_bind.
    cbn. rewrite bool_decide_eq_true_2 by done. cbn. rewrite Hx.
    eexists. split; [reflexivity|]. cbn. split_and!; try done.
    intros [= Heq]. apply lookup_lt_Some in Hx. lia.
  - eexists. split; [reflexivity|]. by split_and!.
Qed.

(** X18. [_onRuleSave] changes [selectedIds] only after a successful save of a
    new ruleset, to that ruleset's id alone; otherwise the component is as
    the list's refresh left it, and when the refresh fails nothing is
    selected at all. *)
Theorem save_selects_new (refresh : Eff OrRules unit) (result : SaveResult) this :
  (∀ e, refresh this = Throws e →
        _onRuleSave refresh (OrRulesSaveEvent result) this = Throws e)
  ∧ (∀ refreshed, refresh this = Returns ((), refreshed) →
       (success result && isNew result = false →
        _onRuleSave refresh (OrRulesSaveEvent result) this = Returns ((), refreshed))
       ∧ (∀ x : Ruleset,
            success result && isNew result = true →
            heap refreshed !! save_ruleset result = Some x →
            _onRuleSave refresh (OrRulesSaveEvent result) this
            = Returns ((), {| heap := heap refreshed;
                              _viewer := _viewer refreshed;
                              selectedIds := Some [id x] |}))).
Proof.
  unfold _onRuleSave. cbn [OrRulesSaveEvent event_detail]. split.
  - intros e He. unfold mbind, Eff_bind. by rewrite He.
  - intros refreshed Hrefresh. rewrite (bind_returns _ _ _ _ _ Hrefresh). split.
    + by intros ->.
    + intros x -> Hx. unfold readRuleset, setSelectedIds, mbind, Eff_bind. by rewrite Hx.
Qed.

End Properties.

(** *** On the sample component *)

Import Samples.

Lemma selection_changed_witness :
  ∃ after,
    _onRuleSelectionChanged (OrRulesSelectionEvent reselect) editing = Returns ((), after)
    ∧ selectedIds after = Some [Some 7%Z]
    ∧ heap after = [rule; rule]
    ∧ viewer_ruleset (_viewer after) = Some 1.
Proof.
  destruct (selection_changed editing reselect [rule]) as (after & Hrun & Hids & _ & Hone).
  - repeat constructor.
  - destruct Hone as (Hheap & Hviewer & _). by exists after.
Defined.

Example deselect_changed :
  _onRuleSelectionChanged (OrRulesSelectionEvent nothing) editing
  = Returns ((), {| heap := [rule];
                    _viewer := {| modified := true; viewer_ruleset := None |};
                    selectedIds := Some [] |}).
Proof. vm_compute. reflexivity. Qed.

End GuardMore.

(** ** The entries of a resolution *)

Module ResolverEntries.

Import Resolver EffFacts EffMore ResolverSpec ResolverMore.

Section Properties.
Context {ValueFormat ValueConstraint : Type}.
Variable stringMatch : string → option string → bool.
Variable UNKNOWNASSET : string.

Local Abbreviation Heap := (Resolver.Heap ValueFormat ValueConstraint).
Local Abbreviation Descriptors := (Resolver.Descriptors ValueFormat ValueConstraint).
Local Abbreviation RulesConfig := (Resolver.RulesConfig ValueFormat ValueConstraint).
Local Abbreviation Section_ := (Resolver.RulesDescriptorSection ValueFormat ValueConstraint).
Local Abbreviation AttributeDescriptor := (Resolver.AttributeDescriptor ValueFormat ValueConstraint).
Local Abbreviation RulesConfigAsset := (Resolver.RulesConfigAsset ValueFormat ValueConstraint).
Local Abbreviation RulesConfigAttribute :=
  (Resolver.RulesConfigAttribute ValueFormat ValueConstraint).

Implicit Types (h : Heap) (d : Descriptors) (c : RulesConfig) (catalog : AssetModelUtil)
  (ad : AssetDescriptor) (section : option Section_).

(** *** Attribute overrides *)


(** *** Filtering the catalog, in order *)

Lemma entryFor_later catalog c (useActionConfig : bool) h h' ad (result : option Ref) :
  entryFor catalog c useActionConfig h ad result →
  infos h `prefix_of` infos h' →
  entryFor catalog c useActionConfig h' ad result.
Proof.
  unfold entryFor. intros Hentry Hpre.
  destruct (getAssetDescriptorFromSection _ _ _) as [cd|]; [|done].
  destruct Hentry as (new & r & ti & ti' & ad' & l' & -> & Hr & Hti & Hti' & Hrest).
  exists new, r, ti, ti', ad', l'.
  split_and!; try done; try tauto; by eapply prefix_lookup_Some.
Qed.

(** The callback over the survivors, one store after the other: the
    references it returns and the entries they are. *)
Lemma mapM_amalgamate_in_order catalog c d (useActionConfig : bool)
    (survivors : list AssetDescriptor) h :
  Forall (described h catalog) survivors →
  ∃ h',
    mapM (amalgamate stringMatch catalog c d useActionConfig) survivors h
    = Returns (resolvedRefs catalog c useActionConfig (length (infos h)) survivors, h')
    ∧ infos h `prefix_of` infos h'
    ∧ length (attrs h') = length (attrs h)
    ∧ Forall2 (entryFor catalog c useActionConfig h') survivors
              (resolvedRefs catalog c useActionConfig (length (infos h)) survivors).
Proof.
  revert h. induction survivors as [|ad survivors IH]; intros h Hdesc.
  { exists h. split_and!; [done|done|done|constructor]. }
  apply Forall_cons in Hdesc as [Had Hdesc].
  destruct Had as (r & ti & Hr & Hti & Hvalid).
  cbn [resolvedRefs mapM].
  destruct (getAssetDescriptorFromSection (propKey (ad_name ad)) (Some c) useActionConfig)
    as [cd|] eqn:Hcd.
  - destruct (amalgamate_override_exact stringMatch catalog c d useActionConfig ad h cd r ti
                Hcd Hr Hti Hvalid)
      as (h1 & ti' & ad' & Hrun & (_ & Hlen1 & _) & _ & Hl' & _ & _ & Had' & _ & Hname & _).
    set (h2 := {| infos := infos h ++ [ti']; attrs := attrs h1 |}) in *.
    assert (Hpre2 : infos h `prefix_of` infos h2) by (by apply prefix_app_r).
    destruct (IH h2) as (h' & Hrest & Hpre & Hlen & Hall).
    { eapply Forall_impl; [exact Hdesc|]. intros ad0 Had0.
      by eapply described_preserved. }
    assert (Hlen2 : length (infos h2) = S (length (infos h))).
    { cbn. rewrite length_app. cbn. lia. }
    rewrite Hlen2 in Hrest, Hall.
    exists h'. rewrite (bind_returns _ _ _ _ _ Hrun), (bind_returns _ _ _ _ _ Hrest).
    split_and!; [done|by etrans|by rewrite Hlen|].
    constructor; [|done].
    apply entryFor_later with (h := h2); [|done].
    unfold entryFor. rewrite Hcd.
    eexists (length (infos h)), r, ti, ti', ad', _.
    split_and!; [done|done| | | |done| |exact Hl'|].
    + cbn. by apply lookup_app_l_Some.
    + cbn. by apply list_lookup_middle.
    + apply lookup_lt_Some in Hti. lia.
    + rewrite Hname. by destruct (assetDescriptor ti).
    + destruct (defined (includeAttributes cd) || defined (excludeAttributes cd));
        [apply filter_sublist|done].
  - assert (Hrun : amalgamate stringMatch catalog c d useActionConfig ad h
                   = Returns (getAssetTypeInfo catalog ad, h)).
    { unfold amalgamate. by rewrite Hcd. }
    destruct (IH h Hdesc) as (h' & Hrest & Hpre & Hlen & Hall).
    exists h'. rewrite (bind_returns _ _ _ _ _ Hrun), (bind_returns _ _ _ _ _ Hrest).
    split_and!; [done|done|done|].
    constructor; [|done]. unfold entryFor. by rewrite Hcd.
Qed.

(** C4. With a config that has [descriptors], the excluded names are those
    of the side section's [excludeAssets] together with those of the [all]
    section's; a descriptor survives exactly when the allow list is empty or
    holds its name and the excluded names do not hold it; the resolver
    returns one entry per survivor, in the catalog's order: the list of
    references is the one fixed by the survivors in that order, and the
    entry at each position is the entry of the survivor at that position. *)
Theorem catalog_filtered_in_order catalog c d (useActionConfig : bool) h :
  descriptors c = Some d →
  registered h catalog →
  Forall (described h catalog) (getAssetDescriptors catalog) →
  let section := if useActionConfig then action d else when d in
  let available :=
    List.filter (λ n, bool_decide (n ≠ Some UNKNOWNASSET))
                (registeredName h <$> getAssetTypeInfos catalog) in
  let allowed := allowedAssetTypes d section available in
  let excluded := excludedAssetTypes d section in
  let survivors :=
    filter (λ ad, (allowed = [] ∨ ad_name ad ∈ allowed) ∧ ad_name ad ∉ excluded)
           (getAssetDescriptors catalog) in
  let results := resolvedRefs catalog c useActionConfig (length (infos h)) survivors in
  (∀ name, name ∈ excluded
           ↔ name ∈ Some <$> default [] (section ≫= excludeAssets)
             ∨ name ∈ Some <$> default [] (all d ≫= excludeAssets))
  ∧ survivors `sublist_of` getAssetDescriptors catalog
  ∧ ∃ h',
      getAssetInfos stringMatch UNKNOWNASSET catalog (Some c) useActionConfig h
      = Returns (results, h')
      ∧ Forall2 (entryFor catalog c useActionConfig h') survivors results.
Proof.
  intros Hd Hreg Hdesc section available allowed excluded survivors results.
  pose proof (getAssetTypes_names UNKNOWNASSET catalog h Hreg) as Havailable.
  fold available in Havailable.
  assert (Hsurvivors : filter (λ ad, isIncluded allowed excluded ad)
                              (getAssetDescriptors catalog) = survivors).
  { apply list_filter_iff. intros ad. apply (isIncluded_spec stringMatch UNKNOWNASSET). }
  assert (Hsub : survivors `sublist_of` getAssetDescriptors catalog)
    by apply sublist_filter.
  destruct (mapM_amalgamate_in_order catalog c d useActionConfig survivors h)
    as (h' & Hrun & _ & _ & Hall).
  { apply Forall_forall. intros ad Had. revert Hdesc. rewrite Forall_forall.
    intros Hdesc. apply Hdesc. by eapply elem_of_sublist. }
  split_and!; [apply (excludedAssetTypes_union stringMatch UNKNOWNASSET)|done|].
  exists h'. split; [|done].
  unfold getAssetInfos. rewrite (bind_returns _ _ _ _ _ Havailable), Hd.
  fold section. fold excluded. fold allowed. rewrite Hsurvivors. exact Hrun.
Qed.

End Properties.

(** *** On the samples *)

Import Samples.



Lemma twoStore_registered : registered twoStore twoCatalog.
Proof.
  repeat constructor; [by exists thermostatInfo, thermostat|by exists boilerInfo, boiler].
Qed.

Lemma twoStore_described : Forall (described twoStore twoCatalog) (getAssetDescriptors twoCatalog).
Proof.
  repeat constructor.
  - exists 0, thermostatInfo. split_and!; [done|done|]. repeat constructor. by exists temperature.
  - exists 1, boilerInfo. split_and!; [done|done|]. repeat constructor. by exists pressure.
Qed.

(** Two asset types, both with an override: two new entries, the
    thermostat's first. *)
Example two_types_in_order :
  ∃ h', getAssetInfos exactMatch UNKNOWNASSET twoCatalog (Some config) false twoStore
        = Returns ([Some 2; Some 3], h')
        ∧ (ti ← infos h' !! 2; ad ← assetDescriptor ti; ad_name ad) = Some "ThermostatAsset"
        ∧ (ti ← infos h' !! 3; ad ← assetDescriptor ti; ad_name ad) = Some "BoilerAsset".
Proof. eexists. split; [vm_compute; reflexivity|]. done. Qed.

Lemma catalog_filtered_in_order_witness :
  let section := when overriding in
  let available :=
    List.filter (λ n, bool_decide (n ≠ Some UNKNOWNASSET))
                (registeredName twoStore <$> getAssetTypeInfos twoCatalog) in
  let allowed := allowedAssetTypes overriding section available in
  let excluded := excludedAssetTypes overriding section in
  let survivors :=
    filter (λ ad, (allowed = [] ∨ ad_name ad ∈ allowed) ∧ ad_name ad ∉ excluded)
           (getAssetDescriptors twoCatalog) in
  let results := resolvedRefs twoCatalog config false 2 survivors in
  (∀ name, name ∈ excluded
           ↔ name ∈ Some <$> default [] (section ≫= excludeAssets)
             ∨ name ∈ Some <$> default [] (all overriding ≫= excludeAssets))
  ∧ survivors `sublist_of` getAssetDescriptors twoCatalog
  ∧ ∃ h',
      getAssetInfos exactMatch UNKNOWNASSET twoCatalog (Some config) false twoStore
      = Returns (results, h')
      ∧ Forall2 (entryFor twoCatalog config false h') survivors results.
Proof.
  exact (catalog_filtered_in_order exactMatch UNKNOWNASSET twoCatalog config overriding false
           twoStore eq_refl twoStore_registered twoStore_described).
Defined.

(** On that input the survivors are both descriptors and the references are
    the two new ones. *)
Example two_survivors :
  filter (λ ad, (allowedAssetTypes overriding (when overriding)
                   [Some "ThermostatAsset"; Some "BoilerAsset"] = []
                 ∨ ad_name ad ∈ allowedAssetTypes overriding (when overriding)
                                  [Some "ThermostatAsset"; Some "BoilerAsset"])
                ∧ ad_name ad ∉ excludedAssetTypes overriding (when overriding))
         (getAssetDescriptors twoCatalog)
  = [thermostat; boiler]
  ∧ resolvedRefs twoCatalog config false 2 [thermostat; boiler] = [Some 2; Some 3].
Proof. split; vm_compute; reflexivity. Qed.

End ResolverEntries.
